(** * Topic frequency panel: the statistics engine of [src/ExamplePanel.tsx]

    A shallow embedding of the panel's frequency statistics
    ([removeOutliers], [calculateFrequencyStats], [getCachedStats] and the
    timestamp retention of [context.onRender]) and the properties the
    specification states about them.

    JavaScript numbers are IEEE 754 binary64 values; they are modelled by
    Rocq's primitive [float], whose operations are specified bit for bit by
    [SpecFloat]/[FloatAxioms].  Nothing is idealised to real arithmetic:
    every evaluation below is the evaluation the panel performs.  The two
    maps of the panel are plain objects: a read under a topic name that
    [Object.prototype] defines finds the inherited member, and the
    embedding follows the code there. *)

From Stdlib Require Import ZArith QArith List Floats Lia Bool Permutation Sorted.
From stdpp Require Import base gmap strings sorting.
Import ListNotations.

#[local] Set Warnings "-inexact-float".

(** * Part I: the embedding *)

Section Embedding.
Local Open Scope float_scope.

(** ** JavaScript numbers and built-ins *)

(** [ToNumber] of an array length (a non-negative integer): the nearest
    binary64 value. *)
Definition Number_of_nat (n : nat) : float :=
  SF2Prim (binary_normalize prec emax (Z.of_nat n) 0%Z false).

(** [x ** 2].  Engines evaluate a power with exponent 2 as the product
    [x * x] (one rounding). *)
Definition pow2 (x : float) : float := x * x.

Definition is_pos_zero (x : float) : bool := is_zero x && negb (get_sign x).
Definition is_neg_zero (x : float) : bool := is_zero x && get_sign x.

(** [Math.max(...coerced)]: starts from -Infinity, returns NaN at the first
    NaN, and orders +0 above -0. *)
Fixpoint Math_max_loop (highest : float) (coerced : list float) : float :=
  match coerced with
  | [] => highest
  | number :: rest =>
      if is_nan number then nan
      else if is_pos_zero number && is_neg_zero highest then Math_max_loop number rest
      else if highest <? number then Math_max_loop number rest
      else Math_max_loop highest rest
  end.

Definition Math_max (coerced : list float) : float :=
  Math_max_loop neg_infinity coerced.

(** [Math.min(...coerced)]: starts from +Infinity, returns NaN at the first
    NaN, and orders -0 below +0. *)
Fixpoint Math_min_loop (lowest : float) (coerced : list float) : float :=
  match coerced with
  | [] => lowest
  | number :: rest =>
      if is_nan number then nan
      else if is_neg_zero number && is_pos_zero lowest then Math_min_loop number rest
      else if number <? lowest then Math_min_loop number rest
      else Math_min_loop lowest rest
  end.

Definition Math_min (coerced : list float) : float :=
  Math_min_loop infinity coerced.

(** [Array.prototype.sort(comparefn)] is a stable sort: [a] is moved behind
    [b] exactly when [comparefn(a, b) > 0].  It is modelled by the stable
    insertion sort; on a consistent comparator every stable sort returns
    the same array.  A comparator that answers NaN (an operand of the
    difference is NaN) is not consistent, and ECMAScript then leaves the
    order to the implementation: the properties of the numeric sorts are
    stated for arrays without NaN. *)
Fixpoint sort_insert (comparefn : float -> float -> float) (a : float)
    (sorted : list float) : list float :=
  match sorted with
  | [] => [a]
  | b :: rest =>
      if 0 <? comparefn a b then b :: sort_insert comparefn a rest
      else a :: b :: rest
  end.

Fixpoint Array_sort (comparefn : float -> float -> float) (arr : list float)
    : list float :=
  match arr with
  | [] => []
  | a :: rest => sort_insert comparefn a (Array_sort comparefn rest)
  end.

(** A [Set<number>] keeps its elements in insertion order and compares them
    with SameValueZero (NaN equals NaN, -0 equals +0 and is stored as +0). *)
Definition SameValueZero (x y : float) : bool :=
  (x =? y) || (is_nan x && is_nan y).

Definition Set_has (s : list float) (x : float) : bool :=
  existsb (SameValueZero x) s.

(** The key a [Set] stores for [x]: -0 is stored as +0. *)
Definition norm_zero (x : float) : float := if is_zero x then 0 else x.

Definition Set_add (s : list float) (x : float) : list float :=
  if Set_has s x then s else s ++ [norm_zero x].

(** [new Set(iterable)] *)
Definition Set_of_array (arr : list float) : list float :=
  fold_left Set_add arr [].

(** ** The panel's data *)

(** [Omit<FrequencyStats, "topic">], the value of [calculateFrequencyStats]. *)
Record Stats := mkStats {
  messageCount : nat;
  frequencies : list float;
  averageFrequency : float;
  medianFrequency : float;
  stdDeviation : float;
  minFrequency : float;
  maxFrequency : float;
  filteredFrequencies : list float;
  outlierCount : Z
}.

(** [FrequencyStats]: [{ topic, ...calculateFrequencyStats(..) }]. *)
Record FrequencyStats := mkFrequencyStats {
  topic : string;
  body : Stats
}.

Definition MAX_TIMESTAMPS_PER_TOPIC : nat := 1000.

(** ** removeOutliers (lines 57-69) *)

Definition removeOutliers (frequencies : list float) (threshold : float)
    : list float :=
  if (length frequencies <? 3)%nat then frequencies
  else
    let sum := fold_left (fun acc freq => acc + freq) frequencies 0 in
    let mean := sum / Number_of_nat (length frequencies) in
    let variance :=
      fold_left (fun acc freq => acc + pow2 (freq - mean)) frequencies 0
      / Number_of_nat (length frequencies) in
    let stdDev := sqrt variance in
    List.filter (fun freq => abs (freq - mean) <=? threshold * stdDev) frequencies.

(** ** calculateFrequencyStats (lines 71-155) *)

(** Lines 88-95: the loop over [i = 1 .. length - 1] that pushes
    [1.0 / interval] for every positive interval. *)
Definition intervals_loop (sortedTimestamps : list float) : list float :=
  fold_left
    (fun intervals i =>
       let interval :=
         nth i sortedTimestamps nan - nth (i - 1) sortedTimestamps nan in
       if 0 <? interval then intervals ++ [1 / interval] else intervals)
    (seq 1 (length sortedTimestamps - 1)) [].

(** Lines 87-95, the operation the specification calls computeRates. *)
Definition computeRates (timestamps : list float) : list float :=
  intervals_loop (Array_sort (fun a b => a - b) timestamps).

(** The record of all-zero statistics the three early returns build. *)
Definition zeroStats (messageCount : nat) (frequencies : list float)
    (outlierCount : Z) : Stats :=
  mkStats messageCount frequencies 0 0 0 0 0 [] outlierCount.

(** Lines 112-152, the operation the specification calls summarize: from the
    raw rates ([intervals]) and the filtered rates to the statistics. *)
Definition summarize (messageCount : nat) (intervals filteredFrequencies : list float)
    : Stats :=
  let outlierCount :=
    (Z.of_nat (length intervals) - Z.of_nat (length filteredFrequencies))%Z in
  if (length filteredFrequencies =? 0)%nat then
    zeroStats messageCount intervals outlierCount
  else
    let sum := fold_left (fun acc freq => acc + freq) filteredFrequencies 0 in
    let average := sum / Number_of_nat (length filteredFrequencies) in
    let sortedFiltered := Array_sort (fun a b => a - b) filteredFrequencies in
    let medianIndex := (length sortedFiltered / 2)%nat in
    let median :=
      if (length sortedFiltered mod 2 =? 0)%nat
      then (nth (medianIndex - 1) sortedFiltered nan + nth medianIndex sortedFiltered nan) / 2
      else nth medianIndex sortedFiltered nan in
    let variance :=
      fold_left (fun acc freq => acc + pow2 (freq - average)) filteredFrequencies 0
      / Number_of_nat (length filteredFrequencies) in
    let stdDev := sqrt variance in
    mkStats messageCount intervals average median stdDev
      (Math_min filteredFrequencies) (Math_max filteredFrequencies)
      filteredFrequencies outlierCount.

Definition calculateFrequencyStats (outlierThreshold : float)
    (timestamps : list float) : Stats :=
  if (length timestamps <? 2)%nat then
    zeroStats (length timestamps) [] 0%Z
  else
    let intervals := computeRates timestamps in
    if (length intervals =? 0)%nat then
      zeroStats (length timestamps) [] 0%Z
    else
      let filteredFrequencies := removeOutliers intervals outlierThreshold in
      summarize (length timestamps) intervals filteredFrequencies.

(** ** Plain objects used as maps *)

(** [topicTimestamps] and [statsCache.current] are plain objects ([{}])
    indexed by topic names.  A read [obj[key]] that finds no own property
    goes on to [Object.prototype]; its members are built-in functions and
    the accessor [__proto__]. *)
Inductive PrototypeMember :=
| builtin_function (arity : nat)
| prototype_accessor.

(** The properties of [Object.prototype]; a function is given with its
    [length]. *)
Definition Object_prototype_members : list (string * PrototypeMember) :=
  [ ("constructor"%string, builtin_function 1);
    ("hasOwnProperty"%string, builtin_function 1);
    ("isPrototypeOf"%string, builtin_function 1);
    ("propertyIsEnumerable"%string, builtin_function 1);
    ("toLocaleString"%string, builtin_function 0);
    ("toString"%string, builtin_function 0);
    ("valueOf"%string, builtin_function 0);
    ("__defineGetter__"%string, builtin_function 2);
    ("__defineSetter__"%string, builtin_function 2);
    ("__lookupGetter__"%string, builtin_function 1);
    ("__lookupSetter__"%string, builtin_function 1);
    ("__proto__"%string, prototype_accessor) ].

Definition Object_prototype (key : string) : option PrototypeMember :=
  option_map snd
    (find (fun member => String.eqb key (fst member)) Object_prototype_members).

(** What [obj[key]] finds: an own property, a member of the prototype, or
    nothing. *)
Inductive Property (A : Type) :=
| Own (a : A)
| Inherited (member : PrototypeMember)
| Undefined.
#[global] Arguments Own {A} a.
#[global] Arguments Inherited {A} member.
#[global] Arguments Undefined {A}.

(** The own properties of the object are the entries of the map. *)
Definition Object_get {A} (obj : gmap string A) (key : string) : Property A :=
  match obj !! key with
  | Some a => Own a
  | None =>
      match Object_prototype key with
      | Some member => Inherited member
      | None => Undefined
      end
  end.

(** [Array.from(member)].  A function is array-like through its [length]
    and has no indexed property: the array holds that many [undefined].
    [Object.prototype] has no [length]: the array is empty.  The elements
    reach only [Math.max] and the subtraction of line 91, which convert
    [undefined] to NaN, and the sorts, which leave an array of [undefined]s
    as it is: they are given as NaN. *)
Definition Array_from_member (member : PrototypeMember) : list float :=
  match member with
  | builtin_function arity => repeat nan arity
  | prototype_accessor => []
  end.

(** ** getCachedStats (lines 157-182) *)

(** [FrequencyStats] values are JavaScript objects: the cache holds a
    reference.  Objects live in a store (a list, extended at each
    allocation) and a reference is an index into it, so that "the identical
    object" is equality of references.

    An entry of [statsCache] is an object with a numeric [lastUpdate]; a
    member of the prototype found in its place is truthy but has no
    [lastUpdate], and the comparison of line 164 fails.  The assignment of
    line 174 creates an own property, except under the key [__proto__],
    where it makes the entry the prototype of the cache: a later read of
    [__proto__] finds the entry, and the three properties the entry adds to
    the prototype chain carry no [lastUpdate] either.  The map records the
    entry under its key in both cases. *)
Definition ref := nat.

Record CacheEntry := mkCacheEntry {
  cached_stats : ref;
  cached_lastUpdate : float;
  cached_timestampCount : nat
}.

Record Panel := mkPanel {
  topicTimestamps : gmap string (list float);
  statsCache : gmap string CacheEntry;
  objects : list FrequencyStats;
  outlierThreshold : float
}.

Section Cache.
(** [Array.prototype.sort()] without a comparator orders the elements by
    their decimal string; the conversion of numbers to strings is not
    modelled, so this built-in is a parameter. *)
Variable Array_sort_default : list float -> list float.

(** [Array.from(timestamps || []).sort()], line 170. *)
Definition timestamps_array (timestamps : Property (list float)) : list float :=
  match timestamps with
  | Own s => Array_sort_default s
  | Inherited member => Array_from_member member
  | Undefined => Array_sort_default []
  end.

(** Lines 160-161, [timestamps?.size || 0] and
    [timestamps ? Math.max(...Array.from(timestamps)) : 0]: a member of the
    prototype is truthy and has no [size]. *)
Definition getCachedStats (topic : string) (p : Panel) : ref * Panel :=
  let timestamps := Object_get (topicTimestamps p) topic in
  let timestampCount :=
    match timestamps with Own s => length s | _ => 0%nat end in
  let lastUpdate :=
    match timestamps with
    | Own s => Math_max s
    | Inherited member => Math_max (Array_from_member member)
    | Undefined => 0
    end in
  let recompute :=
    let stats :=
      mkFrequencyStats topic
        (calculateFrequencyStats (outlierThreshold p) (timestamps_array timestamps)) in
    let r := length (objects p) in
    (r, mkPanel (topicTimestamps p)
          (<[topic := mkCacheEntry r lastUpdate timestampCount]> (statsCache p))
          (objects p ++ [stats]) (outlierThreshold p)) in
  match Object_get (statsCache p) topic with
  | Own cached =>
      if (cached_lastUpdate cached =? lastUpdate)
         && (cached_timestampCount cached =? timestampCount)%nat
      then (cached_stats cached, p)
      else recompute
  | Inherited _ => recompute
  | Undefined => recompute
  end.
End Cache.

(** ** Timestamp retention in context.onRender (lines 279-306) *)

Record Time := mkTime { sec : float; nsec : float }.
Record MessageEvent := mkMessageEvent { msg_topic : string; receiveTime : Time }.

(** The state of the [setTopicTimestamps] updater while it walks the
    frame: the copied map, the stats cache and [hasChanges]. *)
Record Retention := mkRetention {
  updated : gmap string (list float);
  cache : gmap string CacheEntry;
  hasChanges : bool
}.

(** The outcome of code that may throw. *)
Inductive Completion (A : Type) :=
| normal (a : A)
| throw_TypeError.
#[global] Arguments normal {A} a.
#[global] Arguments throw_TypeError {A}.

(** The timestamp line 285 reads off a message. *)
Definition timestamp_of (messageEvent : MessageEvent) : float :=
  sec (receiveTime messageEvent) + nsec (receiveTime messageEvent) * 1e-9.

(** Lines 291-302: the callback once [updated[topic]] is a [Set] holding
    [current].  [updated] is a shallow copy of [prev]: the [Set] objects
    are shared and [add] mutates them in place, which is unobservable here
    because [prev] is returned only when no set has grown. *)
Definition record_timestamp (r : Retention) (topic : string) (timestamp : float)
    (current : list float) : Retention :=
  let prevSize := length current in
  let added := Set_add current timestamp in
  if (prevSize <? length added)%nat then
    if (MAX_TIMESTAMPS_PER_TOPIC <? length added)%nat then
      let sortedTimestamps := Array_sort (fun a b => b - a) added in
      mkRetention
        (<[topic := Set_of_array (firstn MAX_TIMESTAMPS_PER_TOPIC sortedTimestamps)]> (updated r))
        (delete topic (cache r))
        true
    else mkRetention (<[topic := added]> (updated r)) (cache r) true
  else mkRetention (<[topic := added]> (updated r)) (cache r) (hasChanges r).

(** The body of [currentFrame.forEach], lines 284-302.  Line 287 creates a
    [Set] only when [updated[topic]] is falsy.  A member of the prototype
    is truthy and has no method [add]: line 292 throws a TypeError. *)
Definition retain (r : Retention) (messageEvent : MessageEvent) : Completion Retention :=
  let topic := msg_topic messageEvent in
  let timestamp :=
    sec (receiveTime messageEvent) + nsec (receiveTime messageEvent) * 1e-9 in
  match Object_get (updated r) topic with
  | Own s => normal (record_timestamp r topic timestamp s)
  | Undefined => normal (record_timestamp r topic timestamp [])
  | Inherited _ => throw_TypeError
  end.

(** [currentFrame.forEach]: an exception ends the walk. *)
Fixpoint forEach_retain (currentFrame : list MessageEvent) (r : Retention)
    : Completion Retention :=
  match currentFrame with
  | [] => normal r
  | messageEvent :: rest =>
      match retain r messageEvent with
      | normal r' => forEach_retain rest r'
      | throw_TypeError => throw_TypeError
      end
  end.

(** The updater of lines 279-306 on one frame: the new [topicTimestamps]
    ([updated] when something changed, [prev] otherwise) and the cache, or
    the exception that leaves the updater. *)
Definition onRender_frame (currentFrame : list MessageEvent) (p : Panel)
    : Completion Panel :=
  match forEach_retain currentFrame
          (mkRetention (topicTimestamps p) (statsCache p) false) with
  | normal r =>
      normal (mkPanel (if hasChanges r then updated r else topicTimestamps p)
                (cache r) (objects p) (outlierThreshold p))
  | throw_TypeError => throw_TypeError
  end.

(** [obj[key]] finds a member of the prototype. *)
Definition reaches_prototype {A} (obj : gmap string A) (key : string) : bool :=
  match Object_get obj key with
  | Inherited _ => true
  | _ => false
  end.

(** Some message of the frame is on a topic that reaches the prototype. *)
Definition frame_reaches_prototype {A} (obj : gmap string A)
    (currentFrame : list MessageEvent) : bool :=
  existsb (fun messageEvent => reaches_prototype obj (msg_topic messageEvent))
    currentFrame.

(** The callback and the walk on topics whose lookup stays in the map. *)
Definition retain_own (r : Retention) (messageEvent : MessageEvent) : Retention :=
  record_timestamp r (msg_topic messageEvent)
    (sec (receiveTime messageEvent) + nsec (receiveTime messageEvent) * 1e-9)
    (match updated r !! msg_topic messageEvent with Some s => s | None => [] end).

Definition frame_own (currentFrame : list MessageEvent) (p : Panel) : Panel :=
  let r := fold_left retain_own currentFrame
             (mkRetention (topicTimestamps p) (statsCache p) false) in
  mkPanel (if hasChanges r then updated r else topicTimestamps p)
    (cache r) (objects p) (outlierThreshold p).

(** ** Reference definitions, in the words of the specification *)

(** A collection of arrival times holds no NaN. *)
Definition nan_free (l : list float) : bool :=
  forallb (fun x => negb (is_nan x)) l.

(** The representation invariant of a [Set<number>]: pairwise distinct
    under SameValueZero, and no -0. *)
Fixpoint is_Set (s : list float) : bool :=
  match s with
  | [] => true
  | x :: rest => negb (Set_has rest x) && negb (is_neg_zero x) && is_Set rest
  end.

(** [a <= b] on numbers, as a proposition. *)
Definition fle (a b : float) : Prop := (a <=? b) = true.

(** [a >= b] on numbers, as a proposition. *)
Definition fge (a b : float) : Prop := (b <=? a) = true.

(** Sorted, strictly increasing. *)
Fixpoint strictly_increasing (t : list float) : bool :=
  match t with
  | prev :: ((cur :: _) as rest) => (prev <? cur) && strictly_increasing rest
  | _ => true
  end.

(** "For each consecutive pair compute delta = t[i] - t[i-1]; if delta > 0,
    emit rate 1/delta; non-positive deltas are skipped." *)
Fixpoint reference_rates (t : list float) : list float :=
  match t with
  | prev :: ((cur :: _) as rest) =>
      let delta := cur - prev in
      if 0 <? delta then 1 / delta :: reference_rates rest
      else reference_rates rest
  | _ => []
  end.

(** The sum of a sequence, accumulated from the left starting at 0. *)
Fixpoint sum_from (acc : float) (l : list float) : float :=
  match l with
  | [] => acc
  | x :: rest => sum_from (acc + x) rest
  end.

(** "Population mean": the sum divided by N. *)
Definition population_mean (l : list float) : float :=
  sum_from 0 l / Number_of_nat (length l).

(** "Population standard deviation (divide by N, not N-1)": the square root
    of the mean squared deviation from the population mean. *)
Definition population_stddev (l : list float) : float :=
  let mu := population_mean l in
  sqrt (sum_from 0 (map (fun x => (x - mu) * (x - mu)) l) / Number_of_nat (length l)).

(** "Retain each rate whose absolute deviation from the mean is
    <= thresholdSigma * stdDev." *)
Definition within_sigma (rates : list float) (thresholdSigma : float) (x : float) : bool :=
  abs (x - population_mean rates) <=? thresholdSigma * population_stddev rates.

(** The same rule in exact arithmetic.  A finite binary64 value stands for
    a rational number. *)
Definition exact (x : float) : option Q :=
  match Prim2SF x with
  | S754_zero _ => Some (inject_Z 0)
  | S754_finite s m e =>
      Some (Qred (Qmult (inject_Z (cond_Zopp s (Zpos m))) (Qpower (inject_Z 2) e)))
  | _ => None
  end.







(** "A cheap fingerprint = (max timestamp value in the set, set
    cardinality)"; for a channel that has no set yet the panel uses (0, 0),
    and for what it finds on the prototype the maximum over its array and
    the cardinality 0. *)
Definition fingerprint (timestamps : Property (list float)) : float * nat :=
  match timestamps with
  | Own s => (Math_max s, length s)
  | Inherited member => (Math_max (Array_from_member member), 0%nat)
  | Undefined => (0, 0%nat)
  end.

(** "Standard even/odd-size median (average the two middle values when the
    count is even)" of a sequence sorted ascending. *)
Definition reference_median (sorted : list float) : float :=
  let n := length sorted in
  if Nat.even n
  then (nth (Nat.div2 n - 1) sorted nan + nth (Nat.div2 n) sorted nan) / 2
  else nth (Nat.div2 n) sorted nan.

(** ** Sample data for the instances *)

(** A full channel: the 1000 timestamps 1, 2, ..., 1000 seconds. *)
Definition full_channel : list float := map Number_of_nat (seq 1 1000).

Definition full_retention : Retention :=
  mkRetention (<["/scan"%string := full_channel]> ∅)
    (<["/scan"%string := mkCacheEntry 0%nat 1000 1000%nat]> ∅) false.

Definition next_message : MessageEvent :=
  mkMessageEvent "/scan"%string (mkTime 1001 0).

Definition sample_panel : Panel :=
  mkPanel (<["/imu"%string := [1; 2; 4; 4.5]]> ∅) ∅ [] 2.

(** [sample_panel] after the statistics of "/imu" were shown once: the
    cache holds an entry for the four timestamps. *)
Definition cached_panel : Panel :=
  snd (getCachedStats (fun timestamps => timestamps) "/imu"%string sample_panel).

(** A frame with a known timestamp and two new ones. *)
Definition sample_frame : list MessageEvent :=
  [ mkMessageEvent "/imu"%string (mkTime 2 0);
    mkMessageEvent "/scan"%string (mkTime 1001 0);
    mkMessageEvent "/imu"%string (mkTime 7 0) ].

End Embedding.

(** ** Predicates on binary64 values used by the arithmetic lemmas *)

Abbreviation fexp64 := (fexp prec emax).
Abbreviation emin64 := (SpecFloat.emin prec emax).

(** A finite or infinite value of sign [s]. *)
Definition has_sign (s : bool) (x : spec_float) : Prop :=
  match x with
  | S754_finite s' _ _ | S754_infinity s' => s' = s
  | _ => False
  end.

Definition is_zero_or_nan (x : spec_float) : Prop :=
  match x with
  | S754_zero _ | S754_nan => True
  | _ => False
  end.

(** [norm_zero] on the specification side. *)
Definition SFnorm_zero (x : spec_float) : spec_float :=
  match x with
  | S754_zero _ => S754_zero false
  | _ => x
  end.

(** A number a [Set] of times stores: neither NaN nor -0. *)
Definition canonical (x : float) : Prop :=
  is_nan x = false /\ norm_zero x = x.

(** Every set of the map holds at most [MAX_TIMESTAMPS_PER_TOPIC] times. *)
Definition capped (m : gmap string (list float)) : Prop :=
  forall topic s, m !! topic = Some s -> (length s <= MAX_TIMESTAMPS_PER_TOPIC)%nat.

(** Every set of the map is a well-formed [Set] of times. *)
Definition sets_of_times (m : gmap string (list float)) : Prop :=
  forall topic s, m !! topic = Some s -> is_Set s = true /\ nan_free s = true.

(** * Part I, continued: the rest of the panel *)

Section PanelEmbedding.
Local Open Scope float_scope.

(** ** setOutlierThreshold (lines 50, 381-383) *)

(** The state setter of [outlierThreshold]; [statsCache] is a [useRef] and
    survives the change. *)
Definition setOutlierThreshold (threshold : float) (p : Panel) : Panel :=
  mkPanel (topicTimestamps p) (statsCache p) (objects p) threshold.

(** ** frequencyStats (lines 184-198) *)

Inductive SortBy := by_topic | by_frequency | by_outliers.

(** [Array.prototype.sort(comparefn)] on an array of any elements, as
    [Array_sort]: [positive a b] is the test [comparefn(a, b) > 0]. *)
Fixpoint sort_insert_by {A} (positive : A -> A -> bool) (a : A) (sorted : list A)
    : list A :=
  match sorted with
  | [] => [a]
  | b :: rest =>
      if positive a b then b :: sort_insert_by positive a rest
      else a :: b :: rest
  end.

Fixpoint Array_sort_by {A} (positive : A -> A -> bool) (arr : list A) : list A :=
  match arr with
  | [] => []
  | a :: rest => sort_insert_by positive a (Array_sort_by positive rest)
  end.

(** The object a reference points to. *)
Definition deref (p : Panel) (r : ref) : option FrequencyStats :=
  nth_error (objects p) r.

Section FrequencyStatsList.
Variable Array_sort_default : list float -> list float.
(** [String.prototype.localeCompare] depends on the host's locale; its sign
    is all the sort uses. *)
Variable localeCompare : string -> string -> Z.

(** [selectedTopics.map(getCachedStats)]: the calls run left to right, each
    on the cache the previous one left. *)
Fixpoint map_getCachedStats (selectedTopics : list string) (p : Panel)
    : list ref * Panel :=
  match selectedTopics with
  | [] => ([], p)
  | t :: rest =>
      let '(r, p1) := getCachedStats Array_sort_default t p in
      let '(rs, p2) := map_getCachedStats rest p1 in
      (r :: rs, p2)
  end.

(** The comparator of lines 187-197, as the test [comparefn(a, b) > 0]. *)
Definition compareStats (sortBy : SortBy) (a b : FrequencyStats) : bool :=
  match sortBy with
  | by_frequency => 0 <? averageFrequency (body b) - averageFrequency (body a)
  | by_outliers => (0 <? outlierCount (body b) - outlierCount (body a))%Z
  | by_topic => (0 <? localeCompare (topic a) (topic b))%Z
  end.

(** The memo of lines 184-198: the array of references to the statistics
    of the selected topics, sorted. *)
Definition frequencyStats (sortBy : SortBy) (selectedTopics : list string) (p : Panel)
    : list ref * Panel :=
  let '(stats, p') := map_getCachedStats selectedTopics p in
  (Array_sort_by
     (fun ra rb =>
        match deref p' ra, deref p' rb with
        | Some a, Some b => compareStats sortBy a b
        | _, _ => false
        end)
     stats,
   p').
End FrequencyStatsList.

(** ** Topic selection (lines 326-361) *)

(** [handleTopicSelection]: the new value of [selectedTopics]. *)
Definition handleTopicSelection (topicName : string) (selected : bool)
    (prev : list string) : list string :=
  if selected then prev ++ [topicName]
  else List.filter (fun t => negb (String.eqb t topicName)) prev.

(** [toggleTopicExpanded]: the new value of [expandedTopics], a
    [Set<string>] kept as the list of its elements in insertion order. *)
Definition toggleTopicExpanded (topic : string) (prev : list string) : list string :=
  let newSet := prev in
  if existsb (String.eqb topic) newSet
  then List.filter (fun t => negb (String.eqb t topic)) newSet
  else newSet ++ [topic].

(** [expandedTopics.has(topic)] *)
Definition isExpanded (expandedTopics : list string) (topic : string) : bool :=
  existsb (String.eqb topic) expandedTopics.

(** ** createHistogram (lines 200-221) *)

Record HistogramBin := mkHistogramBin {
  binStart : float;
  binEnd : float;
  count : nat
}.

(** The values [Math.floor] returns: NaN, the infinities, -0 and the
    integers (every binary64 integer is a [Z], exactly). *)
Inductive Integral :=
  | I_nan
  | I_infinity (negative : bool)
  | I_neg_zero
  | I_int (k : Z).

Definition Math_floor (x : float) : Integral :=
  match Prim2SF x with
  | S754_nan => I_nan
  | S754_infinity s => I_infinity s
  | S754_zero s => if s then I_neg_zero else I_int 0
  | S754_finite s m e =>
      if (0 <=? e)%Z then I_int (cond_Zopp s (Zpos m * 2 ^ e))
      else I_int (cond_Zopp s (Zpos m) / 2 ^ (- e))
  end.

(** [Math.min(x, b)] for an integral [x] and an integer [b]. *)
Definition Math_min_integral (x : Integral) (b : Z) : Integral :=
  match x with
  | I_nan => I_nan
  | I_infinity true => I_infinity true
  | I_infinity false => I_int b
  | I_neg_zero => if (0 <=? b)%Z then I_neg_zero else I_int b
  | I_int k => I_int (Z.min k b)
  end.

(** The array index a number denotes as a property key, if any: the
    integers from 0 to 2^32 - 2 (-0 is the key "0"). *)
Definition array_index (x : Integral) : option nat :=
  match x with
  | I_neg_zero => Some 0%nat
  | I_int k =>
      if (0 <=? k)%Z && (k <? 2 ^ 32 - 1)%Z then Some (Z.to_nat k) else None
  | _ => None
  end.

(** An array of counts; [None] is a hole.  Writing at or beyond the length
    extends the array, leaving holes in between. *)
Definition array_set (arr : list (option nat)) (k : nat) (v : nat)
    : list (option nat) :=
  if (k <? length arr)%nat then <[k := Some v]> arr
  else arr ++ repeat None (k - length arr) ++ [Some v].

(** [arr[k] ?? 0] *)
Definition array_get_or_0 (arr : list (option nat)) (k : nat) : nat :=
  match nth_error arr k with
  | Some (Some c) => c
  | _ => 0%nat
  end.

(** The body of [frequencies.forEach], lines 212-213.  A key that is not an
    array index sets a named property, which [map] never visits. *)
Definition histogram_add (min binWidth : float) (bins : nat)
    (histogram : list (option nat)) (freq : float) : list (option nat) :=
  let binIndex :=
    Math_min_integral (Math_floor ((freq - min) / binWidth)) (Z.of_nat bins - 1) in
  match array_index binIndex with
  | Some k => array_set histogram k (array_get_or_0 histogram k + 1)
  | None => histogram
  end.

Definition createHistogram (frequencies : list float) (bins : nat)
    : list (option HistogramBin) :=
  if (length frequencies =? 0)%nat then []
  else
    let min := Math_min frequencies in
    let max := Math_max frequencies in
    let binWidth := (max - min) / Number_of_nat bins in
    let histogram :=
      fold_left (histogram_add min binWidth bins) frequencies
        (repeat (Some 0%nat) bins) in
    imap
      (fun index count =>
         option_map
           (fun c =>
              mkHistogramBin (min + Number_of_nat index * binWidth)
                (min + Number_of_nat (index + 1) * binWidth) c)
           count)
      histogram.

(** The only call, [createHistogram(stats.filteredFrequencies)], takes the
    default [bins = 20]. *)
Definition default_bins : nat := 20.

(** The number of samples a histogram shows. *)
Definition histogram_total (h : list (option HistogramBin)) : nat :=
  fold_right (fun bin acc => match bin with Some b => count b + acc | None => acc end)%nat
    0%nat h.

End PanelEmbedding.

(** ** Invariants of the cache *)

(** Every cache entry refers to an object of the store that carries the
    entry's own topic. *)
Definition cache_coherent (p : Panel) : Prop :=
  forall t c, statsCache p !! t = Some c ->
    exists o, deref p (cached_stats c) = Some o /\ topic o = t.

(** No cache entry was stored for more timestamps than the channel holds. *)
Definition cache_counts_bounded (p : Panel) : Prop :=
  forall t c, statsCache p !! t = Some c ->
    (cached_timestampCount c
     <= length (match topicTimestamps p !! t with Some s => s | None => [] end))%nat.

(** The sum of the counts of an array with holes. *)
Definition array_total (arr : list (option nat)) : nat :=
  fold_right (fun c acc => match c with Some n => (n + acc)%nat | None => acc end)
    0%nat arr.

(** A zero, a positive finite number or +Infinity. *)
Definition SFnonneg (x : spec_float) : Prop :=
  match x with
  | S754_zero _ | S754_finite false _ _ | S754_infinity false => True
  | _ => False
  end.

(** * Part II: binary64 arithmetic

    Facts about IEEE 754 binary64 derived from [SpecFloat]: rounding a
    non-zero integer mantissa keeps its sign, the sign of a difference is
    the order of its operands, and [<=] is a total preorder on the values
    that are not NaN. *)

Lemma emin64_val : emin64 = (-1074)%Z.
Proof. reflexivity. Qed.

Lemma fexp64_val e : fexp64 e = Z.max (e - 53) (-1074).
Proof. reflexivity. Qed.

Lemma digits2_size p : digits2_pos p = Pos.size p.
Proof. induction p; simpl; congruence. Qed.

Lemma digits2_bounds p :
  (2 ^ (Zpos (digits2_pos p) - 1) <= Zpos p < 2 ^ Zpos (digits2_pos p))%Z.
Proof.
  rewrite digits2_size. split.
  - pose proof (Pos.size_le p) as H.
    assert (H2 : (Zpos (2 ^ Pos.size p) <= Zpos p~0)%Z) by exact H.
    rewrite Pos2Z.inj_pow in H2.
    replace (Zpos (Pos.size p)) with (Z.succ (Zpos (Pos.size p) - 1)) in H2 by lia.
    rewrite Z.pow_succ_r in H2 by lia. lia.
  - pose proof (Pos.size_gt p) as H.
    assert (H2 : (Zpos p < Zpos (2 ^ Pos.size p))%Z) by exact H.
    now rewrite Pos2Z.inj_pow in H2.
Qed.

Lemma iter_pos_nat {A} (f : A -> A) n x :
  SpecFloat.iter_pos f n x = Nat.iter (Pos.to_nat n) f x.
Proof.
  revert x. induction n as [n IH|n IH|]; intros x.
  - change (SpecFloat.iter_pos f n~1 x)
      with (SpecFloat.iter_pos f n (SpecFloat.iter_pos f n (f x))).
    rewrite !IH, Pos2Nat.inj_xI, <- Nat.iter_add, <- Nat.iter_succ_r.
    f_equal. lia.
  - change (SpecFloat.iter_pos f n~0 x)
      with (SpecFloat.iter_pos f n (SpecFloat.iter_pos f n x)).
    rewrite !IH, Pos2Nat.inj_xO, <- Nat.iter_add. f_equal. lia.
  - reflexivity.
Qed.

Lemma shr_1_m r : (0 <= shr_m r)%Z -> shr_m (shr_1 r) = Z.div2 (shr_m r).
Proof.
  destruct r as [m b s]; simpl. destruct m as [|[p|p|]|p]; simpl; intros; try reflexivity; lia.
Qed.

Lemma shr_iter_m k r :
  (0 <= shr_m r)%Z -> shr_m (Nat.iter k shr_1 r) = (shr_m r / 2 ^ Z.of_nat k)%Z.
Proof.
  intros H. induction k as [|k IH].
  - simpl. now rewrite Z.div_1_r.
  - rewrite Nat2Z.inj_succ, Z.pow_succ_r by lia. simpl.
    rewrite shr_1_m, IH.
    + rewrite Z.div2_div, Z.div_div by lia. f_equal. lia.
    + rewrite IH. apply Z.div_pos; lia.
Qed.


Lemma shr_m_shr (r : shr_record) e n :
  (0 <= shr_m r)%Z ->
  shr_m (fst (shr r e n)) = (shr_m r / 2 ^ Z.max 0 n)%Z /\ snd (shr r e n) = (e + Z.max 0 n)%Z.
Proof.
  intros H. destruct n as [|p|p]; simpl.
  - rewrite Z.div_1_r. split; [reflexivity|lia].
  - rewrite iter_pos_nat, shr_iter_m by assumption.
    rewrite positive_nat_Z. split; reflexivity.
  - rewrite Z.div_1_r. split; [reflexivity|lia].
Qed.

Lemma shr_record_of_loc_m m l : shr_m (shr_record_of_loc m l) = m.
Proof. destruct l as [|[| |]]; reflexivity. Qed.

(** Shifting a positive mantissa whose exponent is at least [emin] to its
    canonical exponent never flushes it to zero. *)
Lemma shr_fexp_pos p e l :
  (emin64 <= e)%Z ->
  (0 < shr_m (fst (shr_fexp prec emax (Zpos p) e l)))%Z /\
  (emin64 <= snd (shr_fexp prec emax (Zpos p) e l))%Z.
Proof.
  intros He. unfold shr_fexp.
  set (n := (fexp64 (Zdigits2 (Zpos p) + e) - e)%Z).
  destruct (shr_m_shr (shr_record_of_loc (Zpos p) l) e n) as [Hm Hs].
  { rewrite shr_record_of_loc_m. lia. }
  rewrite Hm, Hs, shr_record_of_loc_m. split; [|lia].
  pose proof (digits2_bounds p) as [Hlo _].
  assert (Hn : (Z.max 0 n <= Zpos (digits2_pos p) - 1)%Z).
  { subst n. simpl Zdigits2. rewrite fexp64_val. rewrite emin64_val in He. lia. }
  apply Z.div_str_pos. split.
  - apply Z.pow_pos_nonneg; lia.
  - eapply Z.le_trans; [|exact Hlo]. apply Z.pow_le_mono_r; lia.
Qed.

Lemma round_nearest_even_pos m l : (0 < m)%Z -> (0 < round_nearest_even m l)%Z.
Proof.
  intros H. destruct l as [|[| |]]; simpl; try lia.
  destruct (Z.even m); lia.
Qed.

Lemma binary_round_aux_sign sx p e l :
  (emin64 <= e)%Z -> has_sign sx (binary_round_aux prec emax sx (Zpos p) e l).
Proof.
  intros He. unfold binary_round_aux.
  destruct (shr_fexp_pos p e l He) as [Hm1 He1].
  destruct (shr_fexp prec emax (Zpos p) e l) as [mrs' e']. simpl in Hm1, He1.
  pose proof (round_nearest_even_pos (shr_m mrs') (loc_of_shr_record mrs') Hm1) as Hr.
  destruct (round_nearest_even (shr_m mrs') (loc_of_shr_record mrs')) as [|q|q]; try lia.
  destruct (shr_fexp_pos q e' loc_Exact He1) as [Hm2 _].
  destruct (shr_fexp prec emax (Zpos q) e' loc_Exact) as [mrs'' e'']. simpl in Hm2.
  destruct (shr_m mrs'') as [|m|m]; try lia.
  destruct (e'' <=? emax - prec)%Z; reflexivity.
Qed.

Lemma binary_round_sign sx p e :
  (emin64 <= e)%Z -> has_sign sx (binary_round prec emax sx p e).
Proof.
  intros He. unfold binary_round.
  destruct (shl_align p e (fexp64 (Zpos (digits2_pos p) + e))) as [mz ez] eqn:E.
  apply binary_round_aux_sign.
  unfold shl_align in E.
  destruct (fexp64 (Zpos (digits2_pos p) + e) - e)%Z eqn:D; inversion E; subst; try assumption.
  rewrite fexp64_val. rewrite emin64_val. lia.
Qed.

Lemma binary_normalize_sign m e :
  (emin64 <= e)%Z ->
  match (m ?= 0)%Z with
  | Eq => binary_normalize prec emax m e false = S754_zero false
  | Lt => has_sign true (binary_normalize prec emax m e false)
  | Gt => has_sign false (binary_normalize prec emax m e false)
  end.
Proof.
  intros He. destruct m as [|p|p]; simpl; [reflexivity| |]; now apply binary_round_sign.
Qed.


Lemma pos_iter_xO m d : Zpos (Pos.iter xO m d) = (Zpos m * 2 ^ Zpos d)%Z.
Proof.
  induction d as [|d IH] using Pos.peano_ind.
  - simpl. lia.
  - rewrite Pos.iter_succ, Pos2Z.inj_xO, IH, Pos2Z.inj_succ, Z.pow_succ_r by lia. lia.
Qed.

Lemma shl_align_val m e e' :
  (e' <= e)%Z -> Zpos (fst (shl_align m e e')) = (Zpos m * 2 ^ (e - e'))%Z.
Proof.
  intros H. unfold shl_align. destruct (e' - e)%Z as [|d|d] eqn:D; simpl.
  - replace (e - e')%Z with 0%Z by lia. lia.
  - lia.
  - rewrite pos_iter_xO. f_equal. f_equal. lia.
Qed.

Lemma bounded_inv m e :
  bounded prec emax m e = true ->
  (emin64 <= e)%Z /\ (Zpos m < 2 ^ 53)%Z /\ (emin64 < e -> 2 ^ 52 <= Zpos m)%Z.
Proof.
  unfold bounded, canonical_mantissa. intros H.
  apply andb_prop in H as [H _]. apply Z.eqb_eq in H.
  rewrite fexp64_val in H. rewrite emin64_val.
  pose proof (digits2_bounds m) as [Hlo Hhi].
  split; [lia|]. split.
  - eapply Z.lt_le_trans; [exact Hhi|]. apply Z.pow_le_mono_r; lia.
  - intros He. replace (Zpos (digits2_pos m)) with 53%Z in Hlo by lia. exact Hlo.
Qed.

(** On canonical mantissas the lexicographic (exponent, mantissa) comparison
    of [SFcompare] is the comparison of the aligned integer mantissas. *)
Lemma aligned_compare mx ex my ey :
  bounded prec emax mx ex = true -> bounded prec emax my ey = true ->
  (Zpos (fst (shl_align mx ex (Z.min ex ey))) ?= Zpos (fst (shl_align my ey (Z.min ex ey))))%Z =
  match (ex ?= ey)%Z with
  | Lt => Lt
  | Gt => Gt
  | Eq => Pos.compare_cont Eq mx my
  end.
Proof.
  intros Hx Hy.
  apply bounded_inv in Hx as (Hex & Hmx & Hnx), Hy as (Hey & Hmy & Hny).
  rewrite !shl_align_val by lia.
  destruct (Z.compare_spec ex ey) as [E|E|E].
  - subst. rewrite Z.min_id, Z.sub_diag. simpl. rewrite !Pos.mul_1_r. reflexivity.
  - rewrite Z.min_l, Z.sub_diag by lia. apply Z.compare_lt_iff.
    assert (2 ^ 1 <= 2 ^ (ey - ex))%Z by (apply Z.pow_le_mono_r; lia).
    specialize (Hny ltac:(lia)). change (2 ^ 0)%Z with 1%Z.
    change (2 ^ 1)%Z with 2%Z in *. change (2 ^ 53)%Z with (2 ^ 52 * 2)%Z in Hmx. nia.
  - rewrite Z.min_r, Z.sub_diag by lia. apply Z.compare_gt_iff.
    assert (2 ^ 1 <= 2 ^ (ex - ey))%Z by (apply Z.pow_le_mono_r; lia).
    specialize (Hnx ltac:(lia)). change (2 ^ 0)%Z with 1%Z.
    change (2 ^ 1)%Z with 2%Z in *. change (2 ^ 53)%Z with (2 ^ 52 * 2)%Z in Hmy. nia.
Qed.

(** The sign of an IEEE difference is the order of its operands: the heart
    of the numeric comparators [(a, b) => a - b] and [(a, b) => b - a]. *)
Lemma SFsub_sign x y :
  valid_binary x = true -> valid_binary y = true ->
  x <> S754_nan -> y <> S754_nan ->
  match SFcompare x y with
  | Some Lt => has_sign true (SF64sub x y)
  | Some Gt => has_sign false (SF64sub x y)
  | Some Eq => is_zero_or_nan (SF64sub x y)
  | None => False
  end.
Proof.
  intros Vx Vy Nx Ny.
  destruct x as [sx|sx| |sx mx ex], y as [sy|sy| |sy my ey]; try congruence;
    try (destruct sx, sy; simpl; exact I || reflexivity).
  simpl in Vx, Vy.
  pose proof (aligned_compare mx ex my ey Vx Vy) as HC.
  pose proof (bounded_inv _ _ Vx) as (Hex & _).
  pose proof (bounded_inv _ _ Vy) as (Hey & _).
  unfold SF64sub, SFsub.
  set (X := Zpos (fst (shl_align mx ex (Z.min ex ey)))) in *.
  set (Y := Zpos (fst (shl_align my ey (Z.min ex ey)))) in *.
  assert (HX : (0 < X)%Z) by (subst X; lia).
  assert (HY : (0 < Y)%Z) by (subst Y; lia).
  cbv zeta.
  match goal with |- context [binary_normalize prec emax ?M ?E false] =>
    pose proof (binary_normalize_sign M E ltac:(lia)) as HS end.
  unfold SFcompare.
  destruct sx, sy; unfold cond_Zopp in *; cbv iota in HS |- *.
  - (* both negative: the order of the magnitudes is reversed *)
    rewrite <- (Z.compare_sub (- X) (- Y))%Z in HS.
    rewrite Z.compare_opp, Z.compare_antisym, HC in HS.
    destruct (ex ?= ey)%Z; simpl in *; try exact HS.
    destruct (Pos.compare_cont Eq mx my); simpl in *; try exact HS.
    rewrite HS. exact I.
  - replace (- X - Y ?= 0)%Z with Lt in HS
      by (symmetry; apply Z.compare_lt_iff; lia).
    exact HS.
  - replace (X - - Y ?= 0)%Z with Gt in HS
      by (symmetry; apply Z.compare_gt_iff; lia).
    exact HS.
  - rewrite <- (Z.compare_sub X Y), HC in HS.
    destruct (ex ?= ey)%Z; simpl in *; try exact HS.
    destruct (Pos.compare_cont Eq mx my); simpl in *; try exact HS.
    rewrite HS. exact I.
Qed.

(** ** [SFcompare] is a total preorder on the non-NaN values *)

Ltac cmp_cases :=
  repeat match goal with
  | |- context [Pos.compare_cont Eq ?a ?b] =>
      change (Pos.compare_cont Eq a b) with (Pos.compare a b)
  | H : context [Pos.compare_cont Eq ?a ?b] |- _ =>
      change (Pos.compare_cont Eq a b) with (Pos.compare a b) in H
  end;
  repeat match goal with
  | |- context [(?a ?= ?b)%Z] => destruct (Z.compare_spec a b)
  | H : context [(?a ?= ?b)%Z] |- _ => destruct (Z.compare_spec a b)
  | |- context [(?a ?= ?b)%positive] => destruct (Pos.compare_spec a b)
  | H : context [(?a ?= ?b)%positive] |- _ => destruct (Pos.compare_spec a b)
  end;
  simpl in *; subst; try congruence; try lia.

Lemma SFcompare_refl x : x <> S754_nan -> SFcompare x x = Some Eq.
Proof.
  destruct x as [s|s| |s m e]; try congruence; intros _; destruct s; simpl;
    try reflexivity; rewrite Z.compare_refl, Pos.compare_cont_refl; reflexivity.
Qed.

Lemma SFcompare_swap x y :
  SFcompare y x = match SFcompare x y with Some c => Some (CompOpp c) | None => None end.
Proof.
  destruct x as [sx|sx| |sx mx ex], y as [sy|sy| |sy my ey]; simpl;
    try reflexivity; try (destruct sx; reflexivity); try (destruct sy; reflexivity);
    destruct sx, sy; try reflexivity.
  all: rewrite (Z.compare_antisym ex ey); destruct (ex ?= ey)%Z; try reflexivity.
  all: change (Pos.compare_cont Eq my mx) with (Pos.compare my mx);
       change (Pos.compare_cont Eq mx my) with (Pos.compare mx my);
       rewrite (Pos.compare_antisym mx my); destruct (mx ?= my)%positive; reflexivity.
Qed.

Lemma SFleb_trans x y z :
  SFleb x y = true -> SFleb y z = true -> SFleb x z = true.
Proof.
  unfold SFleb.
  destruct x as [sx|sx| |sx mx ex], y as [sy|sy| |sy my ey], z as [sz|sz| |sz mz ez];
    simpl; try congruence;
    try (destruct sx; simpl; congruence); try (destruct sy; simpl; congruence);
    try (destruct sz; simpl; congruence);
    try (destruct sx, sy; simpl; congruence); try (destruct sx, sz; simpl; congruence);
    try (destruct sy, sz; simpl; congruence);
    try (destruct sx, sy, sz; simpl; congruence).
  destruct sx, sy, sz; simpl; try congruence; intros H1 H2; cmp_cases.
Qed.

Lemma SFleb_total x y :
  x <> S754_nan -> y <> S754_nan -> SFltb x y = negb (SFleb y x).
Proof.
  intros Hx Hy. unfold SFltb, SFleb. rewrite (SFcompare_swap x y).
  destruct x as [sx|sx| |sx mx ex], y as [sy|sy| |sy my ey]; try congruence;
    destruct (SFcompare _ _) as [[| |]|] eqn:E; try reflexivity; simpl in E;
    try discriminate; destruct sx; discriminate.
Qed.

Lemma SFeqb_inv x y :
  SFeqb x y = true ->
  x = y \/ (exists s s', x = S754_zero s /\ y = S754_zero s').
Proof.
  unfold SFeqb.
  destruct x as [sx|sx| |sx mx ex], y as [sy|sy| |sy my ey]; simpl; try congruence;
    try (destruct sx; congruence); try (destruct sy; congruence);
    try (destruct sx, sy; (congruence || (intros _; left; reflexivity))).
  - intros _. right. eauto.
  - destruct sx, sy; try congruence; intros H; left;
      destruct (Z.compare_spec ex ey); try discriminate; subst;
      change (Pos.compare_cont Eq mx my) with (Pos.compare mx my) in H;
      destruct (Pos.compare_spec mx my); try discriminate; subst; reflexivity.
Qed.


(** ** The same facts on primitive floats *)

Section Binary64.
Local Open Scope float_scope.

Lemma is_nan_spec x : is_nan x = true <-> Prim2SF x = S754_nan.
Proof.
  unfold is_nan. rewrite FloatAxioms.eqb_spec. unfold SFeqb. split.
  - intros H. destruct (Prim2SF x) as [s|s| |s m e] eqn:E; try reflexivity;
      rewrite SFcompare_refl in H by discriminate; discriminate.
  - intros ->. reflexivity.
Qed.

Lemma not_nan_spec x : is_nan x = false <-> Prim2SF x <> S754_nan.
Proof.
  rewrite <- is_nan_spec. destruct (is_nan x); split; congruence.
Qed.

Lemma leb_not_nan a b : (a <=? b) = true -> is_nan a = false /\ is_nan b = false.
Proof.
  rewrite FloatAxioms.leb_spec, !not_nan_spec. unfold SFleb.
  destruct (Prim2SF a), (Prim2SF b); simpl; intros H; split; congruence.
Qed.

Lemma ltb_not_nan a b : (a <? b) = true -> is_nan a = false /\ is_nan b = false.
Proof.
  rewrite FloatAxioms.ltb_spec, !not_nan_spec. unfold SFltb.
  destruct (Prim2SF a), (Prim2SF b); simpl; intros H; split; congruence.
Qed.

Lemma leb_refl a : is_nan a = false -> (a <=? a) = true.
Proof.
  rewrite not_nan_spec, FloatAxioms.leb_spec. intros H. unfold SFleb.
  now rewrite SFcompare_refl.
Qed.

Lemma leb_trans a b c : (a <=? b) = true -> (b <=? c) = true -> (a <=? c) = true.
Proof. rewrite !FloatAxioms.leb_spec. apply SFleb_trans. Qed.

Lemma ltb_negb_leb a b :
  is_nan a = false -> is_nan b = false -> (a <? b) = negb (b <=? a).
Proof.
  rewrite !not_nan_spec, FloatAxioms.ltb_spec, FloatAxioms.leb_spec. apply SFleb_total.
Qed.

Lemma leb_total a b :
  is_nan a = false -> is_nan b = false -> (a <=? b) = true \/ (b <=? a) = true.
Proof.
  intros Ha Hb. destruct (b <=? a) eqn:E; [now right|left].
  pose proof (ltb_negb_leb a b Ha Hb) as H. rewrite E in H. simpl in H.
  revert H. rewrite FloatAxioms.ltb_spec, FloatAxioms.leb_spec. unfold SFltb, SFleb.
  destruct (SFcompare _ _) as [[| |]|]; congruence.
Qed.

Lemma ltb_leb a b : (a <? b) = true -> (a <=? b) = true.
Proof.
  rewrite FloatAxioms.ltb_spec, FloatAxioms.leb_spec. unfold SFltb, SFleb.
  destruct (SFcompare _ _) as [[| |]|]; congruence.
Qed.

Lemma ltb_asym a b : (a <? b) = true -> (b <? a) = false.
Proof.
  intros H. destruct (ltb_not_nan _ _ H) as [Ha Hb].
  rewrite (ltb_negb_leb b a Hb Ha), (ltb_leb _ _ H). reflexivity.
Qed.

(** [a - b > 0] exactly when [a > b]: the comparator [(a, b) => a - b]
    orders the numbers that are not NaN as [<] does. *)
Lemma sub_pos a b :
  is_nan a = false -> is_nan b = false -> (0 <? a - b) = (b <? a).
Proof.
  intros Ha Hb. apply not_nan_spec in Ha, Hb.
  rewrite !FloatAxioms.ltb_spec, FloatAxioms.sub_spec. change (Prim2SF 0) with (S754_zero false).
  pose proof (SFsub_sign _ _ (Prim2SF_valid a) (Prim2SF_valid b) Ha Hb) as H.
  unfold SFltb. rewrite (SFcompare_swap (Prim2SF a) (Prim2SF b)).
  destruct (SFcompare (Prim2SF a) (Prim2SF b)) as [[| |]|]; try contradiction;
    destruct (SF64sub (Prim2SF a) (Prim2SF b)) as [s|s| |s m e]; simpl in *;
    try contradiction; subst; reflexivity.
Qed.

Lemma eqb_inv a b :
  (a =? b) = true -> a = b \/ (is_zero a = true /\ is_zero b = true).
Proof.
  rewrite FloatAxioms.eqb_spec. intros H. destruct (SFeqb_inv _ _ H) as [E|(s & s' & Ea & Eb)].
  - left. now apply Prim2SF_inj.
  - right. unfold is_zero. rewrite !FloatAxioms.eqb_spec, Ea, Eb. split; reflexivity.
Qed.

Lemma leb_antisym a b : (a <=? b) = true -> (b <=? a) = true -> (a =? b) = true.
Proof.
  rewrite !FloatAxioms.leb_spec, FloatAxioms.eqb_spec. unfold SFleb, SFeqb.
  rewrite (SFcompare_swap (Prim2SF a) (Prim2SF b)).
  destruct (SFcompare _ _) as [[| |]|]; simpl; congruence.
Qed.

Lemma is_nan_false_eqb a : is_nan a = false -> (a =? a) = true.
Proof. unfold is_nan. now destruct (a =? a). Qed.

(** ** Signed zeros *)

Lemma is_zero_spec x : is_zero x = true <-> exists s, Prim2SF x = S754_zero s.
Proof.
  unfold is_zero. rewrite FloatAxioms.eqb_spec. change (Prim2SF zero) with (S754_zero false).
  unfold SFeqb. destruct (Prim2SF x) as [s|s| |s m e]; simpl; split;
    try (intros [s' H]; discriminate); try discriminate; eauto;
    destruct s; discriminate.
Qed.

Lemma norm_zero_nan x : is_nan (norm_zero x) = is_nan x.
Proof.
  unfold norm_zero. destruct (is_zero x) eqn:E; [|reflexivity].
  apply is_zero_spec in E as [s E]. symmetry.
  change (is_nan 0) with false. apply not_nan_spec. congruence.
Qed.

Lemma norm_zero_idem x : norm_zero (norm_zero x) = norm_zero x.
Proof.
  unfold norm_zero. destruct (is_zero x) eqn:E; [reflexivity|]. now rewrite E.
Qed.

Lemma Prim2SF_norm_zero x :
  Prim2SF (norm_zero x) = SFnorm_zero (Prim2SF x).
Proof.
  unfold norm_zero. destruct (is_zero x) eqn:E.
  - apply is_zero_spec in E as [s ->]. reflexivity.
  - destruct (Prim2SF x) eqn:Ex; try reflexivity.
    assert (is_zero x = true) by (apply is_zero_spec; eauto). congruence.
Qed.

Lemma norm_zero_leb a b : (norm_zero a <=? norm_zero b) = (a <=? b).
Proof.
  rewrite !FloatAxioms.leb_spec, !Prim2SF_norm_zero.
  destruct (Prim2SF a), (Prim2SF b); reflexivity.
Qed.

(** A positive difference does not depend on the signs of zero operands. *)
Lemma sub_norm_zero a b :
  (0 <? norm_zero a - norm_zero b) = (0 <? a - b) /\
  ((0 <? a - b) = true -> norm_zero a - norm_zero b = a - b).
Proof.
  assert (H : forall x y, SFltb (S754_zero false) (SF64sub x y) = true ->
            SF64sub (SFnorm_zero x) (SFnorm_zero y) = SF64sub x y).
  { intros x y. destruct x as [sx|sx| |sx mx ex], y as [sy|sy| |sy my ey];
      try destruct sx; try destruct sy; simpl; intros Hp;
      reflexivity || discriminate. }
  assert (H' : forall x y,
            SFltb (S754_zero false) (SF64sub (SFnorm_zero x) (SFnorm_zero y))
            = SFltb (S754_zero false) (SF64sub x y)).
  { intros x y. destruct x as [sx|sx| |sx mx ex], y as [sy|sy| |sy my ey];
      try destruct sx; try destruct sy; reflexivity. }
  split.
  - rewrite !FloatAxioms.ltb_spec, !FloatAxioms.sub_spec, !Prim2SF_norm_zero.
    change (Prim2SF 0) with (S754_zero false). apply H'.
  - rewrite FloatAxioms.ltb_spec, FloatAxioms.sub_spec. change (Prim2SF 0) with (S754_zero false).
    intros Hp. apply Prim2SF_inj. rewrite !FloatAxioms.sub_spec, !Prim2SF_norm_zero.
    now apply H.
Qed.

End Binary64.

(** ** A reciprocal of a positive number is a number *)

Section Reciprocal.
Local Open Scope float_scope.

Lemma shr_fexp_nonneg m e l :
  (0 <= m)%Z -> (0 <= shr_m (fst (shr_fexp prec emax m e l)))%Z.
Proof.
  intros H. unfold shr_fexp.
  destruct (shr_m_shr (shr_record_of_loc m l) e (fexp64 (Zdigits2 m + e) - e)) as [Hm _].
  { now rewrite shr_record_of_loc_m. }
  rewrite Hm, shr_record_of_loc_m. apply Z.div_pos; [exact H|].
  apply Z.pow_pos_nonneg; lia.
Qed.

Lemma round_nearest_even_nonneg m l : (0 <= m)%Z -> (0 <= round_nearest_even m l)%Z.
Proof.
  intros H. destruct l as [|[| |]]; simpl; try lia. destruct (Z.even m); lia.
Qed.

(** Rounding a non-negative mantissa never produces NaN. *)
Lemma binary_round_aux_not_nan sx mx ex lx :
  (0 <= mx)%Z -> binary_round_aux prec emax sx mx ex lx <> S754_nan.
Proof.
  intros H. unfold binary_round_aux.
  pose proof (shr_fexp_nonneg mx ex lx H) as H1.
  destruct (shr_fexp prec emax mx ex lx) as [mrs' e']. simpl in H1.
  pose proof (round_nearest_even_nonneg _ (loc_of_shr_record mrs') H1) as H2.
  pose proof (shr_fexp_nonneg _ e' loc_Exact H2) as H3.
  destruct (shr_fexp prec emax
              (round_nearest_even (shr_m mrs') (loc_of_shr_record mrs')) e' loc_Exact)
    as [mrs'' e'']. simpl in H3.
  destruct (shr_m mrs'') as [|m|m]; [discriminate| |lia].
  destruct (e'' <=? emax - prec)%Z; discriminate.
Qed.

Lemma SFdiv_core_binary_nonneg m1 e1 m2 e2 :
  (0 <= fst (fst (SFdiv_core_binary prec emax (Zpos m1) e1 (Zpos m2) e2)))%Z.
Proof.
  unfold SFdiv_core_binary.
  set (s := (e1 - e2
             - Z.min (fexp64 (Zdigits2 (Zpos m1) + e1 - (Zdigits2 (Zpos m2) + e2)))
                     (e1 - e2))%Z).
  set (m' := match s with Zpos _ => Z.shiftl (Zpos m1) s | Z0 => Zpos m1 | Zneg _ => 0%Z end).
  assert (Hm : (0 <= m')%Z).
  { subst m'. destruct s; try lia. apply Z.shiftl_nonneg. lia. }
  pose proof (Z.div_pos m' (Zpos m2) Hm ltac:(lia)) as Hq.
  unfold Z.div in Hq. destruct (Z.div_eucl m' (Zpos m2)) as [q r]. exact Hq.
Qed.

Lemma reciprocal_not_nan d : (0 <? d) = true -> is_nan (1 / d) = false.
Proof.
  rewrite FloatAxioms.ltb_spec. change (Prim2SF 0) with (S754_zero false).
  intros H. apply not_nan_spec. rewrite div_spec.
  change (Prim2SF 1) with (S754_finite false 4503599627370496 (-52)).
  destruct (Prim2SF d) as [s|[|]| |[|] m e]; try discriminate.
  unfold SF64div, SFdiv.
  pose proof (SFdiv_core_binary_nonneg 4503599627370496 (-52) m e) as Hq.
  destruct (SFdiv_core_binary prec emax 4503599627370496 (-52) (Zpos m) e) as [[mz ez] lz].
  now apply binary_round_aux_not_nan.
Qed.

End Reciprocal.

(** * Part III: arrays, [sort] and [Set] *)

Section Arrays.
Local Open Scope float_scope.

(** ** The built-ins on sample arguments *)

Example sort_ascending_sample :
  Array_sort (fun a b => a - b) [3; 1; 2.5; 1; 10] = [1; 1; 2.5; 3; 10].
Proof. reflexivity. Qed.

Example sort_descending_sample :
  Array_sort (fun a b => b - a) [3; 1; 2.5; 1; 10] = [10; 3; 2.5; 1; 1].
Proof. reflexivity. Qed.

Example sort_infinities_sample :
  Array_sort (fun a b => a - b) [infinity; 0; neg_infinity; infinity]
  = [neg_infinity; 0; infinity; infinity].
Proof. reflexivity. Qed.

Example Math_max_min_sample :
  Math_max [] = neg_infinity /\ Math_min [] = infinity /\
  Math_max [-0; 0] = 0 /\ Math_min [0; -0] = (-0) /\
  Math_max [2; 7; 3] = 7 /\ Math_min [2; 7; 3] = 2.
Proof. repeat split; reflexivity. Qed.

Example Set_sample :
  Set_add (Set_add (Set_add [] 3) (-0)) 3 = [3; 0] /\
  Set_of_array [3; 1; 3; 0; -0; 1] = [3; 1; 0].
Proof. split; reflexivity. Qed.

Lemma nan_free_Forall l : nan_free l = true <-> Forall (fun x => is_nan x = false) l.
Proof.
  unfold nan_free. rewrite forallb_forall, List.Forall_forall. split; intros H x Hx.
  - apply H in Hx. now destruct (is_nan x).
  - rewrite H by assumption. reflexivity.
Qed.

Lemma nan_free_Permutation l l' : Permutation l l' -> nan_free l = true -> nan_free l' = true.
Proof.
  rewrite !nan_free_Forall. intros HP H. now apply (Permutation_Forall HP).
Qed.

(** ** [sort] permutes its array *)

Lemma sort_insert_Permutation comparefn a l :
  Permutation (sort_insert comparefn a l) (a :: l).
Proof.
  induction l as [|b l IH]; simpl.
  - reflexivity.
  - destruct (0 <? comparefn a b).
    + rewrite IH. apply perm_swap.
    + reflexivity.
Qed.

Lemma Array_sort_Permutation comparefn l : Permutation (Array_sort comparefn l) l.
Proof.
  induction l as [|a l IH]; simpl.
  - reflexivity.
  - rewrite sort_insert_Permutation. now constructor.
Qed.

Lemma Array_sort_length comparefn l : length (Array_sort comparefn l) = length l.
Proof. apply Permutation_length, Array_sort_Permutation. Qed.

(** ** [sort] orders the numbers that are not NaN *)

Lemma sort_insert_Sorted (le : float -> float -> Prop) comparefn :
  (forall a b, is_nan a = false -> is_nan b = false ->
     if 0 <? comparefn a b then le b a else le a b) ->
  forall a l, is_nan a = false -> Forall (fun x => is_nan x = false) l ->
  Sorted le l -> Sorted le (sort_insert comparefn a l).
Proof.
  intros Hc a l Ha Hl Hs. induction Hs as [|b l Hs IH Hb]; simpl.
  - repeat constructor.
  - inversion Hl as [|? ? Nb Nl]; subst. specialize (Hc a b Ha Nb).
    destruct (0 <? comparefn a b).
    + constructor; [now apply IH|].
      destruct l as [|c l]; simpl.
      * now repeat constructor.
      * inversion Hb; subst. destruct (0 <? comparefn a c); now constructor.
    + constructor; [now constructor|now constructor].
Qed.

Lemma Array_sort_Sorted (le : float -> float -> Prop) comparefn :
  (forall a b, is_nan a = false -> is_nan b = false ->
     if 0 <? comparefn a b then le b a else le a b) ->
  forall l, nan_free l = true -> Sorted le (Array_sort comparefn l).
Proof.
  intros Hc l Hl. apply nan_free_Forall in Hl.
  induction Hl as [|a l Ha Hl IH]; simpl.
  - constructor.
  - apply sort_insert_Sorted; try assumption.
    eapply Permutation_Forall; [|exact Hl].
    symmetry. apply Array_sort_Permutation.
Qed.

Lemma ascending_comparator a b :
  is_nan a = false -> is_nan b = false ->
  if 0 <? a - b then fle b a else fle a b.
Proof.
  intros Ha Hb. rewrite (sub_pos a b Ha Hb). unfold fle.
  destruct (b <? a) eqn:E.
  - now apply ltb_leb.
  - rewrite (ltb_negb_leb b a Hb Ha) in E. now destruct (a <=? b).
Qed.

Lemma descending_comparator a b :
  is_nan a = false -> is_nan b = false ->
  if 0 <? b - a then fge b a else fge a b.
Proof.
  intros Ha Hb. rewrite (sub_pos b a Hb Ha). unfold fge.
  destruct (a <? b) eqn:E.
  - now apply ltb_leb.
  - rewrite (ltb_negb_leb a b Ha Hb) in E. now destruct (b <=? a).
Qed.

Lemma fle_trans : Transitive fle.
Proof. intros a b c. apply leb_trans. Qed.

Lemma fge_trans : Transitive fge.
Proof. intros a b c Hab Hbc. unfold fge in *. eapply leb_trans; eassumption. Qed.

(** The numeric ascending sort, [sort((a, b) => a - b)]. *)
Lemma sort_ascending l :
  nan_free l = true ->
  StronglySorted fle (Array_sort (fun a b => a - b) l) /\
  Permutation (Array_sort (fun a b => a - b) l) l.
Proof.
  intros H. split; [|apply Array_sort_Permutation].
  apply (@Sorted_StronglySorted _ fle fle_trans).
  apply Array_sort_Sorted; [exact ascending_comparator|exact H].
Qed.

(** The numeric descending sort, [sort((a, b) => b - a)]. *)
Lemma sort_descending l :
  nan_free l = true ->
  StronglySorted fge (Array_sort (fun a b => b - a) l) /\
  Permutation (Array_sort (fun a b => b - a) l) l.
Proof.
  intros H. split; [|apply Array_sort_Permutation].
  apply (@Sorted_StronglySorted _ fge fge_trans).
  apply Array_sort_Sorted; [exact descending_comparator|exact H].
Qed.

(** A strictly increasing array is left as it is. *)
Lemma sort_strictly_increasing l :
  strictly_increasing l = true -> Array_sort (fun a b => a - b) l = l.
Proof.
  induction l as [|a [|b l] IH]; intros H; try reflexivity.
  change (strictly_increasing (a :: b :: l))
    with ((a <? b) && strictly_increasing (b :: l)) in H.
  apply andb_prop in H as [Hab H].
  change (Array_sort (fun a b => a - b) (a :: b :: l))
    with (sort_insert (fun a b => a - b) a (Array_sort (fun a b => a - b) (b :: l))).
  rewrite (IH H). simpl.
  destruct (ltb_not_nan _ _ Hab) as [Ha Hb].
  now rewrite (sub_pos a b Ha Hb), (ltb_asym _ _ Hab).
Qed.

(** ** The interval loop visits the consecutive pairs *)

Lemma intervals_loop_from pre p rest acc :
  fold_left
    (fun intervals i =>
       let interval :=
         nth i (pre ++ p :: rest) nan - nth (i - 1) (pre ++ p :: rest) nan in
       if 0 <? interval then intervals ++ [1 / interval] else intervals)
    (seq (S (length pre)) (length rest)) acc
  = acc ++ reference_rates (p :: rest).
Proof.
  revert pre p acc. induction rest as [|c rest IH]; intros pre p acc.
  - simpl. now rewrite app_nil_r.
  - cbn [length seq fold_left].
    replace (nth (S (length pre)) (pre ++ p :: c :: rest) nan) with c.
    2:{ rewrite app_nth2 by lia.
        now replace (S (length pre) - length pre)%nat with 1%nat by lia. }
    replace (nth (S (length pre) - 1) (pre ++ p :: c :: rest) nan) with p.
    2:{ rewrite app_nth2 by lia.
        now replace (S (length pre) - 1 - length pre)%nat with 0%nat by lia. }
    specialize (IH (pre ++ [p]) c).
    rewrite <- app_assoc in IH. simpl in IH.
    rewrite length_app in IH. simpl in IH.
    replace (length pre + 1)%nat with (S (length pre)) in IH by lia.
    cbv zeta. rewrite IH. cbn [reference_rates].
    destruct (0 <? c - p); [|reflexivity].
    now rewrite <- app_assoc.
Qed.

Lemma intervals_loop_reference l : intervals_loop l = reference_rates l.
Proof.
  unfold intervals_loop. destruct l as [|p rest]; [reflexivity|].
  replace (length (p :: rest) - 1)%nat with (length rest) by (simpl; lia).
  apply (intervals_loop_from [] p rest []).
Qed.

Lemma reference_rates_norm_zero l :
  reference_rates (map norm_zero l) = reference_rates l.
Proof.
  induction l as [|a [|b l] IH]; try reflexivity.
  change (map norm_zero (a :: b :: l))
    with (norm_zero a :: map norm_zero (b :: l)) in *.
  change (map norm_zero (b :: l)) with (norm_zero b :: map norm_zero l) in *.
  cbn [reference_rates]. cbv zeta.
  destruct (sub_norm_zero b a) as [H1 H2]. rewrite H1.
  destruct (0 <? b - a) eqn:E.
  - rewrite (H2 eq_refl). f_equal. exact IH.
  - exact IH.
Qed.

(** Every rate is a number: a pair whose difference is NaN is skipped. *)
Lemma reference_rates_nan_free l : nan_free (reference_rates l) = true.
Proof.
  induction l as [|a [|b l] IH]; try reflexivity.
  cbn [reference_rates]. cbv zeta. destruct (0 <? b - a) eqn:E; [|exact IH].
  cbn [nan_free forallb]. rewrite (reciprocal_not_nan _ E). exact IH.
Qed.

Lemma reference_rates_increasing l :
  strictly_increasing l = true ->
  length (reference_rates l) = (length l - 1)%nat /\
  forall i, (1 <= i < length l)%nat ->
    nth (i - 1) (reference_rates l) nan = 1 / (nth i l nan - nth (i - 1) l nan).
Proof.
  induction l as [|a [|b l] IH]; intros H.
  - split; [reflexivity|simpl; lia].
  - split; [reflexivity|simpl; lia].
  - change (strictly_increasing (a :: b :: l))
      with ((a <? b) && strictly_increasing (b :: l)) in H.
    apply andb_prop in H as [Hab H]. destruct (IH H) as [IHl IHn].
    destruct (ltb_not_nan _ _ Hab) as [Ha Hb].
    cbn [reference_rates]. cbv zeta. rewrite (sub_pos b a Hb Ha), Hab.
    split.
    + simpl length in *. lia.
    + intros i Hi. destruct i as [|[|i]]; [lia|reflexivity|].
      replace (S (S i) - 1)%nat with (S i) by lia.
      specialize (IHn (S i)). replace (S i - 1)%nat with i in IHn by lia.
      simpl length in Hi. exact (IHn ltac:(simpl; lia)).
Qed.

End Arrays.

(** * Part IV: the statistics pipeline *)

Section Pipeline.
Local Open Scope float_scope.

(** ** The pipeline on sample timestamps *)

(** Four messages one second apart, out of order: three rates of 1 Hz. *)
Example statistics_sample :
  calculateFrequencyStats 2 [3; 1; 4; 2]
  = mkStats 4 [1; 1; 1] 1 1 0 1 1 [1; 1; 1] 0.
Proof. reflexivity. Qed.

(** A repeated timestamp contributes no rate. *)
Example repeated_timestamp_sample : computeRates [1; 2; 2; 4] = [1; 0.5].
Proof. reflexivity. Qed.

(** A single far outlier among many regular rates is removed. *)
Example outlier_sample :
  removeOutliers [1; 1; 1; 1; 1; 1; 1; 1; 1; 100] 2 = [1; 1; 1; 1; 1; 1; 1; 1; 1].
Proof. reflexivity. Qed.

Lemma fold_left_sum_from (f : float -> float) l acc :
  fold_left (fun acc freq => acc + f freq) l acc = sum_from acc (map f l).
Proof.
  revert acc. induction l as [|x l IH]; intros acc; simpl; [reflexivity|apply IH].
Qed.

Lemma fold_left_sum l acc :
  fold_left (fun acc freq => acc + freq) l acc = sum_from acc l.
Proof.
  rewrite (fold_left_sum_from (fun x => x)). now rewrite map_id.
Qed.

Lemma removeOutliers_filter rates threshold :
  (3 <= length rates)%nat ->
  removeOutliers rates threshold = List.filter (within_sigma rates threshold) rates.
Proof.
  intros H. unfold removeOutliers.
  destruct (Nat.ltb_spec (length rates) 3) as [Hlt|_]; [lia|].
  cbv zeta. rewrite fold_left_sum.
  rewrite (fold_left_sum_from
             (fun freq => pow2 (freq - sum_from 0 rates / Number_of_nat (length rates)))).
  reflexivity.
Qed.

Lemma removeOutliers_short rates threshold :
  (length rates < 3)%nat -> removeOutliers rates threshold = rates.
Proof.
  intros H. unfold removeOutliers.
  now destruct (Nat.ltb_spec (length rates) 3) as [_|Hge]; [|lia].
Qed.

Lemma filter_sublist (P : float -> bool) l : sublist (List.filter P l) l.
Proof.
  induction l as [|x l IH]; simpl.
  - constructor.
  - destruct (P x); now constructor.
Qed.

Lemma removeOutliers_sublist rates threshold :
  sublist (removeOutliers rates threshold) rates.
Proof.
  destruct (Nat.lt_ge_cases (length rates) 3) as [H|H].
  - now rewrite removeOutliers_short.
  - rewrite removeOutliers_filter by assumption. apply filter_sublist.
Qed.

Lemma reference_rates_short l : (length l < 2)%nat -> reference_rates l = [].
Proof. destruct l as [|a [|b l]]; simpl; intros; try reflexivity; lia. Qed.

Lemma computeRates_as_pairs timestamps :
  computeRates timestamps = reference_rates (Array_sort (fun a b => a - b) timestamps).
Proof. apply intervals_loop_reference. Qed.

Lemma computeRates_short timestamps :
  (length timestamps < 2)%nat -> computeRates timestamps = [].
Proof.
  intros H. rewrite computeRates_as_pairs.
  apply reference_rates_short. now rewrite Array_sort_length.
Qed.

Lemma computeRates_nan_free timestamps : nan_free (computeRates timestamps) = true.
Proof. rewrite computeRates_as_pairs. apply reference_rates_nan_free. Qed.

Lemma removeOutliers_nan_free rates threshold :
  nan_free rates = true -> nan_free (removeOutliers rates threshold) = true.
Proof.
  rewrite !nan_free_Forall, !List.Forall_forall. intros H x Hx. apply H.
  apply list_elem_of_In. apply list_elem_of_In in Hx.
  eapply elem_of_sublist; [exact Hx|apply removeOutliers_sublist].
Qed.


(** The statistics are the composition computeRates, removeOutliers,
    summarize: the two early returns of [calculateFrequencyStats] agree with
    what the composition yields on no rates. *)
Lemma calculateFrequencyStats_pipeline threshold timestamps :
  calculateFrequencyStats threshold timestamps =
  summarize (length timestamps) (computeRates timestamps)
    (removeOutliers (computeRates timestamps) threshold).
Proof.
  unfold calculateFrequencyStats.
  destruct (Nat.ltb_spec (length timestamps) 2) as [H|H].
  - rewrite (computeRates_short _ H). reflexivity.
  - cbv zeta. destruct (computeRates timestamps) as [|r rs] eqn:E; reflexivity.
Qed.

Lemma summarize_fields n intervals filtered :
  frequencies (summarize n intervals filtered) = intervals /\
  filteredFrequencies (summarize n intervals filtered) = filtered /\
  messageCount (summarize n intervals filtered) = n /\
  outlierCount (summarize n intervals filtered) =
    (Z.of_nat (length intervals) - Z.of_nat (length filtered))%Z.
Proof.
  unfold summarize. destruct filtered as [|x filtered]; simpl; repeat split; reflexivity.
Qed.

(** ** C1 *)

(** C1: [computeRates] is the reference definition: it sorts the timestamps
    ascending (for timestamps that are times, i.e. not NaN, the sorted
    array is an ordered permutation of the input), takes
    [delta = t[i] - t[i-1]] over the consecutive pairs, emits [1/delta]
    exactly when [delta > 0] and skips the other pairs; its value is the
    [frequencies] field of the statistics; and on a sorted, strictly
    increasing sequence of length [N >= 2] it returns exactly [N - 1]
    rates, the i-th being [1 / (t[i] - t[i-1])], in timestamp order. *)
Theorem computeRates_reference (timestamps : list float) :
  computeRates timestamps
    = reference_rates (Array_sort (fun a b => a - b) timestamps)
  /\ (forall threshold,
        frequencies (calculateFrequencyStats threshold timestamps)
        = computeRates timestamps)
  /\ (nan_free timestamps = true ->
        StronglySorted fle (Array_sort (fun a b => a - b) timestamps) /\
        Permutation (Array_sort (fun a b => a - b) timestamps) timestamps)
  /\ (strictly_increasing timestamps = true -> (2 <= length timestamps)%nat ->
        length (computeRates timestamps) = (length timestamps - 1)%nat /\
        forall i, (1 <= i < length timestamps)%nat ->
          nth (i - 1) (computeRates timestamps) nan
          = 1 / (nth i timestamps nan - nth (i - 1) timestamps nan)).
Proof.
  split; [apply computeRates_as_pairs|].
  split.
  { intros threshold. rewrite calculateFrequencyStats_pipeline.
    apply summarize_fields. }
  split; [apply sort_ascending|].
  intros Hinc _. rewrite computeRates_as_pairs.
  rewrite (sort_strictly_increasing _ Hinc).
  now apply reference_rates_increasing.
Qed.

(** An instance: timestamps 1, 2, 4. *)
Lemma computeRates_reference_witness :
  length (computeRates [1; 2; 4]) = 2%nat /\
  nth 1 (computeRates [1; 2; 4]) nan = 1 / (4 - 2).
Proof.
  destruct (computeRates_reference [1; 2; 4]) as (_ & _ & _ & H).
  destruct (H eq_refl (le_S _ _ (le_n 2))) as [Hlen Hnth].
  split; [exact Hlen|].
  exact (Hnth 2%nat (conj (le_S _ _ (le_n 1)) (le_n 3))).
Defined.

(** ** C2 *)






(** ** C3 *)

(** C3 as stated fails: on [1,1,1,1,100] with threshold 2.0 the result is
    not [1,1,1,1]. *)
Lemma example_100_not_removed :
  removeOutliers [1; 1; 1; 1; 100] 2 <> [1; 1; 1; 1].
Proof. vm_compute. discriminate. Qed.

(** C3, amended: on the rate sequence [1,1,1,1,100] with threshold 2.0 the
    deviation of 100 from the mean is exactly twice the population standard
    deviation, the test [<=] holds, and [removeOutliers] retains all five
    rates: the filtered result is [1,1,1,1,100] and the outlier count is 0
    (also from timestamps whose rates are that sequence). *)
Theorem removeOutliers_example :
  removeOutliers [1; 1; 1; 1; 100] 2 = [1; 1; 1; 1; 100]
  /\ abs (100 - population_mean [1; 1; 1; 1; 100])
     = 2 * population_stddev [1; 1; 1; 1; 100]
  /\ outlierCount (summarize 6 [1; 1; 1; 1; 100]
                     (removeOutliers [1; 1; 1; 1; 100] 2)) = 0%Z
  /\ computeRates [-4; -3; -2; -1; 0; 0.01] = [1; 1; 1; 1; 100]
  /\ outlierCount (calculateFrequencyStats 2 [-4; -3; -2; -1; 0; 0.01]) = 0%Z.
Proof. vm_compute. repeat split; reflexivity. Qed.

(** ** C5 *)

Lemma mod2_even n : (n mod 2 =? 0)%nat = Nat.even n.
Proof.
  destruct (Nat.even n) eqn:E.
  - apply Nat.even_spec in E as [k ->]. rewrite Nat.mul_comm, Nat.Div0.mod_mul. reflexivity.
  - assert (O : Nat.odd n = true) by (rewrite <- Nat.negb_even, E; reflexivity).
    apply Nat.odd_spec in O as [k ->].
    rewrite Nat.add_comm, Nat.mul_comm, Nat.Div0.mod_add. reflexivity.
Qed.





(** ** C6 *)

(** C6: on fewer than 3 rates, for every threshold, [removeOutliers]
    returns its input unchanged and the resulting outlier count is zero. *)
Theorem removeOutliers_few_samples (rates : list float) (threshold : float) :
  (length rates < 3)%nat ->
  removeOutliers rates threshold = rates
  /\ (forall n, outlierCount (summarize n rates (removeOutliers rates threshold)) = 0%Z)
  /\ (forall timestamps, computeRates timestamps = rates ->
        outlierCount (calculateFrequencyStats threshold timestamps) = 0%Z).
Proof.
  intros H. pose proof (removeOutliers_short rates threshold H) as E.
  split; [exact E|]. split.
  - intros n. destruct (summarize_fields n rates (removeOutliers rates threshold))
      as (_ & _ & _ & ->). rewrite E. lia.
  - intros timestamps Ht. rewrite calculateFrequencyStats_pipeline, Ht.
    destruct (summarize_fields (length timestamps) rates (removeOutliers rates threshold))
      as (_ & _ & _ & ->). rewrite E. lia.
Qed.

(** An instance: two rates. *)
Lemma removeOutliers_few_samples_witness :
  removeOutliers [1; 1000] 0.5 = [1; 1000].
Proof.
  exact (proj1 (removeOutliers_few_samples [1; 1000] 0.5 (le_n 3))).
Defined.

(** ** C9 *)

(** C9: for every rate sequence and threshold the filtered sequence is an
    order-preserving subsequence of the raw sequence: it is obtained by
    deleting elements, so every filtered element occurs in the raw sequence
    and the retained elements keep their relative order; the same holds
    between the [filteredFrequencies] and [frequencies] of the statistics. *)
Theorem filtered_is_subsequence (rates : list float) (threshold : float) :
  sublist (removeOutliers rates threshold) rates
  /\ (forall x, In x (removeOutliers rates threshold) -> In x rates)
  /\ (forall timestamps,
        sublist (filteredFrequencies (calculateFrequencyStats threshold timestamps))
                (frequencies (calculateFrequencyStats threshold timestamps))).
Proof.
  split; [apply removeOutliers_sublist|]. split.
  - intros x Hx. apply list_elem_of_In. apply list_elem_of_In in Hx.
    eapply elem_of_sublist; [exact Hx|apply removeOutliers_sublist].
  - intros timestamps. rewrite calculateFrequencyStats_pipeline.
    destruct (summarize_fields (length timestamps) (computeRates timestamps)
                (removeOutliers (computeRates timestamps) threshold)) as (-> & -> & _).
    apply removeOutliers_sublist.
Qed.

(** ** C10 *)

Lemma sorted_norm_zero l :
  nan_free l = true ->
  StronglySorted fle (map norm_zero (Array_sort (fun a b => a - b) l)).
Proof.
  intros H. destruct (sort_ascending l H) as [Hs _].
  induction Hs as [|a s Hs IH Ha]; simpl; constructor; [exact IH|].
  apply List.Forall_forall. intros y Hy. apply in_map_iff in Hy as (x & <- & Hx).
  rewrite List.Forall_forall in Ha. unfold fle. rewrite norm_zero_leb. now apply Ha.
Qed.

Lemma computeRates_Permutation l1 l2 :
  nan_free l1 = true -> Permutation l1 l2 -> computeRates l1 = computeRates l2.
Proof.
  intros H1 HP. pose proof (nan_free_Permutation _ _ HP H1) as H2.
  rewrite !computeRates_as_pairs.
  rewrite <- (reference_rates_norm_zero (Array_sort _ l1)).
  rewrite <- (reference_rates_norm_zero (Array_sort _ l2)).
  f_equal. apply (StronglySorted_unique_strong fle).
  - intros x1 x2 Hx1 Hx2 H12 H21.
    apply list_elem_of_In, in_map_iff in Hx1 as (y1 & <- & _).
    apply list_elem_of_In, in_map_iff in Hx2 as (y2 & <- & _).
    destruct (eqb_inv _ _ (leb_antisym _ _ H12 H21)) as [E|[Z1 Z2]]; [exact E|].
    rewrite <- (norm_zero_idem y1), <- (norm_zero_idem y2).
    unfold norm_zero at 1 3. now rewrite Z1, Z2.
  - now apply sorted_norm_zero.
  - now apply sorted_norm_zero.
  - apply Permutation_map.
    rewrite !Array_sort_Permutation. exact HP.
Qed.

(** C10: the summary statistics (mean, median, standard deviation, min,
    max, outlier count, and every other field) do not depend on the order
    of the input timestamps: two collections of timestamps (times, hence
    not NaN) that are permutations of each other yield equal statistics. *)
Theorem statistics_permutation_invariant (threshold : float)
    (timestamps1 timestamps2 : list float) :
  nan_free timestamps1 = true ->
  Permutation timestamps1 timestamps2 ->
  calculateFrequencyStats threshold timestamps1
  = calculateFrequencyStats threshold timestamps2.
Proof.
  intros H HP. rewrite !calculateFrequencyStats_pipeline.
  rewrite (computeRates_Permutation _ _ H HP).
  now rewrite (Permutation_length HP).
Qed.

(** An instance: a permutation of 0, 1, 2.5, 3. *)
Lemma statistics_permutation_invariant_witness :
  calculateFrequencyStats 2 [3; 1; 2.5; 0] = calculateFrequencyStats 2 [0; 1; 2.5; 3].
Proof.
  apply statistics_permutation_invariant; [reflexivity|].
  apply (perm_trans (l' := [1; 2.5; 0; 3])).
  - apply (Permutation_cons_append [1; 2.5; 0] 3).
  - apply (perm_trans (l' := [1; 2.5; 3; 0])); [apply perm_skip, perm_skip, perm_swap|].
    apply (Permutation_sym (Permutation_cons_append [1; 2.5; 3] 0)).
Defined.

End Pipeline.

(** * Part V: summary statistics *)

Section Summary.
Local Open Scope float_scope.

Lemma zero_leb a b : is_zero a = true -> is_zero b = true -> (a <=? b) = true.
Proof.
  intros [sa Ha]%is_zero_spec [sb Hb]%is_zero_spec.
  rewrite FloatAxioms.leb_spec, Ha, Hb. reflexivity.
Qed.

Lemma infinity_leb x : (infinity <=? x) = true -> x = infinity.
Proof.
  rewrite FloatAxioms.leb_spec. change (Prim2SF infinity) with (S754_infinity false).
  intros H. apply Prim2SF_inj. change (Prim2SF infinity) with (S754_infinity false).
  destruct (Prim2SF x) as [s|[|]| |s m e]; simpl in H; try discriminate; reflexivity.
Qed.

Lemma leb_neg_infinity x : (x <=? neg_infinity) = true -> x = neg_infinity.
Proof.
  rewrite FloatAxioms.leb_spec. change (Prim2SF neg_infinity) with (S754_infinity true).
  intros H. apply Prim2SF_inj. change (Prim2SF neg_infinity) with (S754_infinity true).
  destruct (Prim2SF x) as [s|[|]| |[|] m e]; simpl in H; try discriminate; reflexivity.
Qed.

Lemma is_neg_zero_is_zero x : is_neg_zero x = true -> is_zero x = true.
Proof. unfold is_neg_zero. now intros [H _]%andb_prop. Qed.

Lemma is_pos_zero_is_zero x : is_pos_zero x = true -> is_zero x = true.
Proof. unfold is_pos_zero. now intros [H _]%andb_prop. Qed.

(** [Math.min] of numbers that are not NaN is a lower bound taken from the
    arguments (or the start value). *)
Lemma Math_min_loop_spec l : forall lowest,
  is_nan lowest = false -> Forall (fun x => is_nan x = false) l ->
  let m := Math_min_loop lowest l in
  (m = lowest \/ In m l) /\ fle m lowest /\ Forall (fle m) l.
Proof.
  induction l as [|x l IH]; intros lowest Hlo Hl; cbn [Math_min_loop]; cbv zeta.
  - split; [now left|]. split; [now apply leb_refl|constructor].
  - inversion Hl as [|? ? Hx Hl']; subst. rewrite Hx.
    assert (Step : forall lo', is_nan lo' = false -> (lo' = lowest \/ lo' = x) ->
              fle lo' lowest -> fle lo' x ->
              (Math_min_loop lo' l = lowest \/ In (Math_min_loop lo' l) (x :: l)) /\
              fle (Math_min_loop lo' l) lowest /\
              Forall (fle (Math_min_loop lo' l)) (x :: l)).
    { intros lo' Hn Hor H1 H2. destruct (IH lo' Hn Hl') as (Hin & Hle & Hall).
      split.
      - destruct Hin as [E|Hin]; [|right; now right].
        rewrite E. destruct Hor as [->| ->]; [now left|right; now left].
      - split; [unfold fle in *; eapply leb_trans; eassumption|].
        constructor; [unfold fle in *; eapply leb_trans; eassumption|exact Hall]. }
    destruct (is_neg_zero x && is_pos_zero lowest) eqn:Z.
    + apply andb_prop in Z as [Zx Zl].
      apply Step; [exact Hx|now right| |now apply leb_refl].
      apply zero_leb; [now apply is_neg_zero_is_zero|now apply is_pos_zero_is_zero].
    + destruct (x <? lowest) eqn:L.
      * apply Step; [exact Hx|now right|now apply ltb_leb|now apply leb_refl].
      * apply Step; [exact Hlo|now left|now apply leb_refl|].
        rewrite (ltb_negb_leb x lowest Hx Hlo) in L. unfold fle.
        now destruct (lowest <=? x).
Qed.

Lemma Math_max_loop_spec l : forall highest,
  is_nan highest = false -> Forall (fun x => is_nan x = false) l ->
  let m := Math_max_loop highest l in
  (m = highest \/ In m l) /\ fle highest m /\ Forall (fun x => fle x m) l.
Proof.
  induction l as [|x l IH]; intros highest Hhi Hl; cbn [Math_max_loop]; cbv zeta.
  - split; [now left|]. split; [now apply leb_refl|constructor].
  - inversion Hl as [|? ? Hx Hl']; subst. rewrite Hx.
    assert (Step : forall hi', is_nan hi' = false -> (hi' = highest \/ hi' = x) ->
              fle highest hi' -> fle x hi' ->
              (Math_max_loop hi' l = highest \/ In (Math_max_loop hi' l) (x :: l)) /\
              fle highest (Math_max_loop hi' l) /\
              Forall (fun y => fle y (Math_max_loop hi' l)) (x :: l)).
    { intros hi' Hn Hor H1 H2. destruct (IH hi' Hn Hl') as (Hin & Hle & Hall).
      split.
      - destruct Hin as [E|Hin]; [|right; now right].
        rewrite E. destruct Hor as [->| ->]; [now left|right; now left].
      - split; [unfold fle in *; eapply leb_trans; eassumption|].
        constructor; [unfold fle in *; eapply leb_trans; eassumption|exact Hall]. }
    destruct (is_pos_zero x && is_neg_zero highest) eqn:Z.
    + apply andb_prop in Z as [Zx Zh].
      apply Step; [exact Hx|now right| |now apply leb_refl].
      apply zero_leb; [now apply is_neg_zero_is_zero|now apply is_pos_zero_is_zero].
    + destruct (highest <? x) eqn:L.
      * apply Step; [exact Hx|now right|now apply ltb_leb|now apply leb_refl].
      * apply Step; [exact Hhi|now left|now apply leb_refl|].
        rewrite (ltb_negb_leb highest x Hhi Hx) in L. unfold fle.
        now destruct (x <=? highest).
Qed.

Lemma Math_min_least l :
  l <> [] -> nan_free l = true ->
  In (Math_min l) l /\ Forall (fle (Math_min l)) l.
Proof.
  intros Hne Hl. apply nan_free_Forall in Hl.
  destruct (Math_min_loop_spec l infinity eq_refl Hl) as (Hin & _ & Hall).
  fold (Math_min l) in *. split; [|exact Hall].
  destruct Hin as [E|Hin]; [|exact Hin].
  destruct l as [|x l]; [congruence|]. rewrite E in *.
  inversion Hall as [|? ? Hx _]; subst.
  rewrite (infinity_leb _ Hx). now left.
Qed.

Lemma Math_max_greatest l :
  l <> [] -> nan_free l = true ->
  In (Math_max l) l /\ Forall (fun x => fle x (Math_max l)) l.
Proof.
  intros Hne Hl. apply nan_free_Forall in Hl.
  destruct (Math_max_loop_spec l neg_infinity eq_refl Hl) as (Hin & _ & Hall).
  fold (Math_max l) in *. split; [|exact Hall].
  destruct Hin as [E|Hin]; [|exact Hin].
  destruct l as [|x l]; [congruence|]. rewrite E in *.
  inversion Hall as [|? ? Hx _]; subst.
  rewrite (leb_neg_infinity _ Hx). now left.
Qed.

Lemma Math_max_not_nan l : nan_free l = true -> is_nan (Math_max l) = false.
Proof.
  intros Hl. apply nan_free_Forall in Hl.
  destruct (Math_max_loop_spec l neg_infinity eq_refl Hl) as ([E|Hin] & _ & _);
    fold (Math_max l) in *.
  - now rewrite E.
  - rewrite List.Forall_forall in Hl. now apply Hl.
Qed.

(** The array reads of the median are within bounds. *)
Lemma median_reads_in_bounds (sorted : list float) :
  sorted <> [] ->
  (length sorted / 2 < length sorted)%nat /\
  ((length sorted mod 2 =? 0)%nat = true -> (1 <= length sorted / 2)%nat).
Proof.
  intros H. assert (0 < length sorted)%nat by (destruct sorted; [congruence|simpl; lia]).
  split.
  - apply Nat.div_lt; lia.
  - intros E. apply Nat.eqb_eq in E.
    assert (2 <= length sorted)%nat.
    { destruct (length sorted) as [|[|n]]; [lia|discriminate|lia]. }
    apply (Nat.Div0.div_le_mono 2 (length sorted) 2) in H1. exact H1.
Qed.

(** C4: on a non-empty filtered rate sequence, [summarize] returns the
    arithmetic mean of the filtered rates, the standard even/odd-size median
    of the filtered rates sorted ascending (the average of the two middle
    values when the count is even, read within bounds), the population
    standard deviation of the filtered rates, and their minimum and maximum
    (for rates that are not NaN: the sorted array is an ordered permutation
    of the filtered rates, and min and max are elements that bound all the
    others, and the filtered rates of every statistics record are such
    rates); in particular [summarize([2,4,6])] has mean 4, median 4, min 2
    and max 6. *)
Theorem summarize_statistics (n : nat) (raw filtered : list float) :
  filtered <> [] ->
  let s := summarize n raw filtered in
  let sorted := Array_sort (fun a b => a - b) filtered in
  averageFrequency s = population_mean filtered
  /\ medianFrequency s = reference_median sorted
  /\ stdDeviation s = population_stddev filtered
  /\ minFrequency s = Math_min filtered
  /\ maxFrequency s = Math_max filtered
  /\ ((length sorted / 2 < length sorted)%nat /\
      (Nat.even (length sorted) = true -> (1 <= length sorted / 2)%nat))
  /\ (nan_free filtered = true ->
        StronglySorted fle sorted /\ Permutation sorted filtered /\
        In (minFrequency s) filtered /\ Forall (fle (minFrequency s)) filtered /\
        In (maxFrequency s) filtered /\ Forall (fun x => fle x (maxFrequency s)) filtered)
  /\ (forall threshold timestamps,
        nan_free (filteredFrequencies (calculateFrequencyStats threshold timestamps))
        = true)
  /\ (let s3 := summarize 4 [2; 4; 6] [2; 4; 6] in
      averageFrequency s3 = 4 /\ medianFrequency s3 = 4 /\
      minFrequency s3 = 2 /\ maxFrequency s3 = 6).
Proof.
  intros Hne s sorted. subst s.
  assert (Hs : sorted <> []).
  { intros E. apply (f_equal (@length float)) in E. subst sorted.
    rewrite Array_sort_length in E. destruct filtered; [congruence|discriminate]. }
  assert (Hlen : (length filtered =? 0)%nat = false)
    by (destruct filtered; [congruence|reflexivity]).
  unfold summarize. rewrite Hlen. cbv zeta.
  cbn [averageFrequency medianFrequency stdDeviation minFrequency maxFrequency].
  split.
  { unfold population_mean. now rewrite fold_left_sum. }
  split.
  { unfold reference_median. fold sorted. now rewrite mod2_even, Nat.div2_div. }
  split.
  { unfold population_stddev, population_mean. rewrite fold_left_sum.
    now rewrite (fold_left_sum_from
      (fun freq => pow2 (freq - sum_from 0 filtered / Number_of_nat (length filtered)))). }
  split; [reflexivity|]. split; [reflexivity|]. split.
  { rewrite <- mod2_even. now apply median_reads_in_bounds. }
  split.
  { intros Hn. destruct (sort_ascending _ Hn) as [S1 S2].
    destruct (Math_min_least filtered ltac:(congruence) Hn) as [M1 M2].
    destruct (Math_max_greatest filtered ltac:(congruence) Hn) as [M3 M4].
    repeat split; assumption. }
  split.
  { intros threshold timestamps. rewrite calculateFrequencyStats_pipeline.
    destruct (summarize_fields (length timestamps) (computeRates timestamps)
                (removeOutliers (computeRates timestamps) threshold)) as (_ & -> & _).
    apply removeOutliers_nan_free, computeRates_nan_free. }
  vm_compute. repeat split; reflexivity.
Qed.

(** An instance: four rates, an even count. *)
Lemma summarize_statistics_witness :
  medianFrequency (summarize 5 [1; 3; 2; 8] [1; 3; 2; 8]) = (2 + 3) / 2
  /\ In (minFrequency (summarize 5 [1; 3; 2; 8] [1; 3; 2; 8])) [1; 3; 2; 8].
Proof.
  destruct (summarize_statistics 5 [1; 3; 2; 8] [1; 3; 2; 8] ltac:(discriminate))
    as (_ & Hmed & _ & _ & _ & _ & Hord & _ & _).
  split; [exact Hmed|].
  exact (proj1 (proj2 (proj2 (Hord eq_refl)))).
Defined.

End Summary.

(** * Part VI: timestamp retention *)

Section Retain.
Local Open Scope float_scope.

Lemma get_sign_zero x s : Prim2SF x = S754_zero s -> get_sign x = s.
Proof.
  intros Hx. unfold get_sign.
  assert (Z : is_zero x = true) by (apply is_zero_spec; eauto).
  rewrite Z, FloatAxioms.ltb_spec, div_spec, Hx.
  change (Prim2SF zero) with (S754_zero false).
  change (Prim2SF one) with (S754_finite false 4503599627370496 (-52)).
  destruct s; reflexivity.
Qed.

Lemma not_neg_zero_norm x : is_neg_zero x = false -> norm_zero x = x.
Proof.
  unfold is_neg_zero, norm_zero. destruct (is_zero x) eqn:Z; [|reflexivity].
  simpl. intros S. apply is_zero_spec in Z as [s Hx].
  rewrite (get_sign_zero x s Hx) in S. subst s.
  apply Prim2SF_inj. now rewrite Hx.
Qed.

Lemma norm_zero_not_neg_zero x : is_neg_zero (norm_zero x) = false.
Proof.
  unfold norm_zero, is_neg_zero. destruct (is_zero x) eqn:Z.
  - reflexivity.
  - now rewrite Z.
Qed.

(** On numbers that are neither NaN nor -0, SameValueZero is equality. *)
Lemma SameValueZero_eq a b :
  is_nan a = false -> norm_zero a = a -> norm_zero b = b ->
  SameValueZero a b = true <-> a = b.
Proof.
  intros Na Za Zb. unfold SameValueZero. rewrite Na, andb_false_l, orb_false_r. split.
  - intros H. destruct (eqb_inv _ _ H) as [E|[Z1 Z2]]; [exact E|].
    unfold norm_zero in Za, Zb. rewrite Z1 in Za. rewrite Z2 in Zb. congruence.
  - intros <-. now apply is_nan_false_eqb.
Qed.

Lemma SameValueZero_norm_zero_l a b :
  SameValueZero (norm_zero a) b = SameValueZero a b.
Proof.
  unfold SameValueZero. rewrite norm_zero_nan. f_equal.
  rewrite !FloatAxioms.eqb_spec, Prim2SF_norm_zero.
  destruct (Prim2SF a), (Prim2SF b); reflexivity.
Qed.

Lemma Set_has_norm_zero s x : Set_has s (norm_zero x) = Set_has s x.
Proof.
  unfold Set_has. induction s as [|y s IH]; simpl; [reflexivity|].
  now rewrite IH, SameValueZero_norm_zero_l.
Qed.

Lemma Set_has_canonical s x :
  Forall canonical s -> canonical x -> Set_has s x = true <-> In x s.
Proof.
  intros Hs [Nx Zx]. unfold Set_has. rewrite existsb_exists. split.
  - intros (y & Hy & E). rewrite List.Forall_forall in Hs.
    destruct (Hs y Hy) as [_ Zy]. apply (SameValueZero_eq x y Nx Zx Zy) in E. now subst.
  - intros H. exists x. split; [exact H|]. now apply SameValueZero_eq.
Qed.

Lemma is_Set_canonical s :
  is_Set s = true -> nan_free s = true -> List.NoDup s /\ Forall canonical s.
Proof.
  induction s as [|x s IH]; simpl; intros HS HN.
  - split; constructor.
  - apply andb_prop in HS as [HS1 HS]. apply andb_prop in HS1 as [Hx1 Hx2].
    apply andb_prop in HN as [Nx HN].
    destruct (IH HS HN) as [ND Hc].
    assert (Cx : canonical x).
    { split; [now destruct (is_nan x)|].
      apply not_neg_zero_norm. now destruct (is_neg_zero x). }
    split; constructor; try assumption.
    intros Hin. apply (Set_has_canonical s x Hc Cx) in Hin.
    rewrite Hin in Hx1. discriminate.
Qed.

Lemma canonical_is_Set s :
  List.NoDup s -> Forall canonical s -> is_Set s = true /\ nan_free s = true.
Proof.
  induction 1 as [|x s Hx ND IH]; intros Hc; [split; reflexivity|].
  inversion Hc as [|? ? Cx Hc']; subst. destruct (IH Hc') as [HS HN].
  simpl. rewrite HS, HN. destruct Cx as [Nx Zx]. rewrite Nx.
  rewrite <- Zx at 2. rewrite norm_zero_not_neg_zero.
  destruct (Set_has s x) eqn:E; [|split; reflexivity].
  apply (Set_has_canonical s x Hc' (conj Nx Zx)) in E. contradiction.
Qed.

(** [new Set(arr)] of a duplicate-free array of canonical numbers holds
    the array itself, in order. *)
Lemma Set_of_array_from acc l :
  List.NoDup (acc ++ l) -> Forall canonical (acc ++ l) ->
  fold_left Set_add l acc = acc ++ l.
Proof.
  revert acc. induction l as [|x l IH]; intros acc ND Hc; simpl.
  - now rewrite app_nil_r.
  - assert (Hacc : Forall canonical acc) by (apply Forall_app in Hc; tauto).
    assert (Cx : canonical x).
    { apply Forall_app in Hc as [_ Hc]. now inversion Hc. }
    assert (E : Set_add acc x = acc ++ [x]).
    { unfold Set_add. destruct (Set_has acc x) eqn:E.
      - apply (Set_has_canonical acc x Hacc Cx) in E.
        apply List.NoDup_remove_2 in ND. exfalso. apply ND. apply in_or_app. now left.
      - now destruct Cx as [_ ->]. }
    rewrite E, (IH (acc ++ [x])); now rewrite <- app_assoc.
Qed.

Lemma Set_of_array_canonical l :
  List.NoDup l -> Forall canonical l -> Set_of_array l = l.
Proof. intros ND Hc. apply (Set_of_array_from [] l ND Hc). Qed.

Lemma Set_add_length s x : (length (Set_add s x) <= S (length s))%nat.
Proof.
  unfold Set_add. destruct (Set_has s x); [lia|].
  rewrite length_app. simpl. lia.
Qed.

Lemma Set_of_array_length_from l acc :
  (length (fold_left Set_add l acc) <= length acc + length l)%nat.
Proof.
  revert acc. induction l as [|x l IH]; intros acc; simpl; [lia|].
  specialize (IH (Set_add acc x)). pose proof (Set_add_length acc x). lia.
Qed.

Lemma Set_of_array_length l : (length (Set_of_array l) <= length l)%nat.
Proof. apply (Set_of_array_length_from l []). Qed.

Lemma capped_insert m topic s :
  capped m -> (length s <= MAX_TIMESTAMPS_PER_TOPIC)%nat -> capped (<[topic := s]> m).
Proof.
  intros Hm Hs t s' H. destruct (decide (topic = t)) as [->|Hne].
  - rewrite lookup_insert_eq in H. now inversion H; subst.
  - rewrite lookup_insert_ne in H by assumption. now apply (Hm t).
Qed.

Lemma retain_own_capped r messageEvent :
  capped (updated r) -> capped (updated (retain_own r messageEvent)).
Proof.
  intros Hr. unfold retain_own, record_timestamp. cbv zeta.
  set (topic := msg_topic messageEvent).
  set (timestamp := sec (receiveTime messageEvent) + nsec (receiveTime messageEvent) * 1e-9).
  set (current := match updated r !! topic with Some s => s | None => [] end).
  assert (Hcur : (length current <= MAX_TIMESTAMPS_PER_TOPIC)%nat).
  { subst current. destruct (updated r !! topic) as [s|] eqn:E.
    - now apply (Hr topic).
    - unfold MAX_TIMESTAMPS_PER_TOPIC. simpl. lia. }
  destruct (Nat.ltb_spec (length current) (length (Set_add current timestamp))) as [Hg|Hg].
  - destruct (Nat.ltb_spec MAX_TIMESTAMPS_PER_TOPIC (length (Set_add current timestamp)))
      as [Hm|Hm]; simpl; apply capped_insert; try assumption.
    etransitivity; [apply Set_of_array_length|]. apply firstn_le_length.
  - simpl. apply capped_insert; [assumption|lia].
Qed.

Lemma fold_retain_own_capped frame r :
  capped (updated r) -> capped (updated (fold_left retain_own frame r)).
Proof.
  revert r. induction frame as [|ev frame IH]; intros r Hr; simpl; [exact Hr|].
  apply IH. now apply retain_own_capped.
Qed.

Lemma Set_add_canonical s x :
  List.NoDup s -> Forall canonical s -> is_nan x = false ->
  List.NoDup (Set_add s x) /\ Forall canonical (Set_add s x).
Proof.
  intros ND Hc Nx. unfold Set_add. destruct (Set_has s x) eqn:E; [now split|].
  assert (Cx : canonical (norm_zero x)).
  { split; [now rewrite norm_zero_nan|apply norm_zero_idem]. }
  split.
  - apply List.NoDup_app; [exact ND| |].
    + constructor; [intros []|constructor].
    + intros y Hy [<-|[]].
      apply (Set_has_canonical s _ Hc Cx) in Hy.
      rewrite Set_has_norm_zero in Hy. congruence.
  - apply Forall_app. split; [exact Hc|now constructor].
Qed.

Lemma sets_of_times_insert m topic s :
  sets_of_times m -> List.NoDup s -> Forall canonical s ->
  sets_of_times (<[topic := s]> m).
Proof.
  intros Hm ND Hc t s' H. destruct (decide (topic = t)) as [->|Hne].
  - rewrite lookup_insert_eq in H. inversion H; subst. now apply canonical_is_Set.
  - rewrite lookup_insert_ne in H by assumption. now apply (Hm t).
Qed.

(** Retention keeps every set a well-formed [Set] of times. *)
Lemma retain_own_sets_of_times r messageEvent :
  is_nan (sec (receiveTime messageEvent) + nsec (receiveTime messageEvent) * 1e-9) = false ->
  sets_of_times (updated r) -> sets_of_times (updated (retain_own r messageEvent)).
Proof.
  intros Nt Hr. unfold retain_own, record_timestamp. cbv zeta.
  set (topic := msg_topic messageEvent).
  set (timestamp := sec (receiveTime messageEvent) + nsec (receiveTime messageEvent) * 1e-9) in *.
  set (current := match updated r !! topic with Some s => s | None => [] end).
  assert (Hcur : List.NoDup current /\ Forall canonical current).
  { subst current. destruct (updated r !! topic) as [s|] eqn:E.
    - destruct (Hr topic s E). now apply is_Set_canonical.
    - split; constructor. }
  destruct Hcur as [NDc Cc].
  destruct (Set_add_canonical current timestamp NDc Cc Nt) as [NDa Ca].
  destruct (length current <? length (Set_add current timestamp))%nat;
    [destruct (MAX_TIMESTAMPS_PER_TOPIC <? length (Set_add current timestamp))%nat|];
    simpl; try (now apply sets_of_times_insert).
  set (sorted := Array_sort (fun a b => b - a) (Set_add current timestamp)).
  assert (Ps : Permutation sorted (Set_add current timestamp))
    by apply Array_sort_Permutation.
  assert (NDs : List.NoDup sorted)
    by (eapply Permutation_NoDup; [symmetry; exact Ps|exact NDa]).
  assert (Cs : Forall canonical sorted)
    by (eapply Permutation_Forall; [symmetry; exact Ps|exact Ca]).
  rewrite <- (firstn_skipn MAX_TIMESTAMPS_PER_TOPIC sorted) in NDs, Cs.
  apply List.NoDup_app_remove_r in NDs. apply Forall_app in Cs as [Cs _].
  rewrite (Set_of_array_canonical _ NDs Cs). now apply sets_of_times_insert.
Qed.

Lemma strongly_sorted_last kept oldest :
  StronglySorted fge (kept ++ [oldest]) -> Forall (fun x => fge x oldest) kept.
Proof.
  induction kept as [|x kept IH]; simpl; intros H; [constructor|].
  inversion H as [|? ? Hs Hx]; subst. constructor; [|now apply IH].
  rewrite List.Forall_forall in Hx. apply Hx. apply in_or_app. right. now left.
Qed.


(** ** Lookups that reach the prototype *)

Lemma Object_get_own {A} (obj : gmap string A) (key : string) (a : A) :
  obj !! key = Some a -> Object_get obj key = Own a.
Proof. intros H. unfold Object_get. now rewrite H. Qed.

Lemma Object_get_not_inherited {A} (obj : gmap string A) (key : string) :
  reaches_prototype obj key = false ->
  Object_get obj key = match obj !! key with Some a => Own a | None => Undefined end.
Proof.
  unfold reaches_prototype, Object_get.
  destruct (obj !! key); [reflexivity|].
  destruct (Object_prototype key); [discriminate|reflexivity].
Qed.

Lemma reaches_prototype_spec {A} (obj : gmap string A) (key : string) :
  reaches_prototype obj key = true <->
  obj !! key = None /\ exists member, Object_prototype key = Some member.
Proof.
  unfold reaches_prototype, Object_get.
  destruct (obj !! key); [split; [discriminate|intros [? _]; discriminate]|].
  destruct (Object_prototype key) as [member|].
  - split; eauto.
  - split; [discriminate|intros [_ [? ?]]; discriminate].
Qed.

Lemma reaches_prototype_own {A} (obj : gmap string A) (key : string) (a : A) :
  obj !! key = Some a -> reaches_prototype obj key = false.
Proof. intros H. unfold reaches_prototype. now rewrite (Object_get_own _ _ _ H). Qed.

(** The callback throws exactly on a topic that reaches the prototype. *)
Lemma retain_spec r messageEvent :
  retain r messageEvent =
  if reaches_prototype (updated r) (msg_topic messageEvent) then throw_TypeError
  else normal (retain_own r messageEvent).
Proof.
  unfold retain, retain_own, reaches_prototype, Object_get. cbv zeta.
  destruct (updated r !! msg_topic messageEvent); [reflexivity|].
  destruct (Object_prototype (msg_topic messageEvent)); reflexivity.
Qed.

Lemma record_timestamp_keys r topic timestamp current t :
  updated (record_timestamp r topic timestamp current) !! t = None <->
  t <> topic /\ updated r !! t = None.
Proof.
  unfold record_timestamp. cbv zeta.
  repeat match goal with |- context [if ?c then _ else _] => destruct c end; simpl;
    rewrite lookup_insert_None; split; intros [H1 H2]; split; congruence.
Qed.

(** A topic that reaches the prototype keeps doing so: the callback
    creates own properties only under other names. *)
Lemma retain_own_reaches r messageEvent t :
  reaches_prototype (updated r) (msg_topic messageEvent) = false ->
  reaches_prototype (updated (retain_own r messageEvent)) t
  = reaches_prototype (updated r) t.
Proof.
  intros Hev. apply eq_true_iff_eq. rewrite !reaches_prototype_spec.
  unfold retain_own. rewrite record_timestamp_keys. split.
  - tauto.
  - intros [Hn Hm]. split; [|exact Hm]. split; [|exact Hn].
    intros ->. assert (H : reaches_prototype (updated r) (msg_topic messageEvent) = true)
      by (apply reaches_prototype_spec; tauto).
    congruence.
Qed.

Lemma forEach_retain_spec frame : forall r,
  forEach_retain frame r =
  if frame_reaches_prototype (updated r) frame then throw_TypeError
  else normal (fold_left retain_own frame r).
Proof.
  induction frame as [|ev frame IH]; intros r; [reflexivity|].
  cbn [forEach_retain fold_left]. unfold frame_reaches_prototype. cbn [existsb].
  rewrite retain_spec.
  destruct (reaches_prototype (updated r) (msg_topic ev)) eqn:E; [reflexivity|].
  rewrite IH. unfold frame_reaches_prototype. cbn [orb].
  replace (existsb (fun messageEvent : MessageEvent =>
                      reaches_prototype (updated (retain_own r ev)) (msg_topic messageEvent))
             frame)
    with (existsb (fun messageEvent : MessageEvent =>
                     reaches_prototype (updated r) (msg_topic messageEvent)) frame).
  - reflexivity.
  - clear IH. induction frame as [|ev' frame IH']; [reflexivity|]. cbn [existsb].
    rewrite (retain_own_reaches r ev (msg_topic ev') E). f_equal. exact IH'.
Qed.

(** A frame throws exactly when one of its messages is on a topic that
    reaches the prototype of [topicTimestamps]. *)
Lemma onRender_frame_spec frame p :
  onRender_frame frame p =
  if frame_reaches_prototype (topicTimestamps p) frame then throw_TypeError
  else normal (frame_own frame p).
Proof.
  unfold onRender_frame, frame_own. rewrite forEach_retain_spec. simpl updated.
  destruct (frame_reaches_prototype (topicTimestamps p) frame); reflexivity.
Qed.

(** When a channel's set holds 1000 distinct timestamps and receives a
    1001st distinct one, the callback keeps the first 1000 elements of the
    timestamps sorted descending. *)
Lemma retain_own_truncates (r : Retention) (messageEvent : MessageEvent) (s : list float) :
  let topic := msg_topic messageEvent in
  let timestamp :=
    sec (receiveTime messageEvent) + nsec (receiveTime messageEvent) * 1e-9 in
  updated r !! topic = Some s ->
  length s = MAX_TIMESTAMPS_PER_TOPIC ->
  is_Set s = true -> nan_free s = true ->
  is_nan timestamp = false -> Set_has s timestamp = false ->
  exists kept oldest,
    updated (retain_own r messageEvent) !! topic = Some kept
    /\ length kept = MAX_TIMESTAMPS_PER_TOPIC
    /\ kept = firstn MAX_TIMESTAMPS_PER_TOPIC
                (Array_sort (fun a b => b - a) (s ++ [norm_zero timestamp]))
    /\ Permutation (kept ++ [oldest]) (s ++ [norm_zero timestamp])
    /\ StronglySorted fge kept
    /\ Forall (fun x => (oldest <? x) = true) kept
    /\ is_Set kept = true /\ nan_free kept = true
    /\ cache (retain_own r messageEvent) !! topic = None
    /\ hasChanges (retain_own r messageEvent) = true.
Proof.
  intros topic timestamp Hs Hlen HS HN Nt Ht.
  destruct (is_Set_canonical s HS HN) as [ND Hc].
  set (t' := norm_zero timestamp).
  assert (Ct : canonical t').
  { split; [subst t'; now rewrite norm_zero_nan|apply norm_zero_idem]. }
  assert (Hnin : ~ In t' s).
  { intros Hin. apply (Set_has_canonical s t' Hc Ct) in Hin.
    subst t'. rewrite Set_has_norm_zero in Hin. congruence. }
  set (added := s ++ [t']).
  assert (NDa : List.NoDup added).
  { subst added. apply List.NoDup_app; [exact ND| |].
    - constructor; [intros []|constructor].
    - intros x Hx [<-|[]]. contradiction. }
  assert (Ca : Forall canonical added).
  { subst added. apply Forall_app. split; [exact Hc|now constructor]. }
  destruct (canonical_is_Set added NDa Ca) as [_ Na].
  destruct (sort_descending added Na) as [Sd Pd].
  set (sorted := Array_sort (fun a b => b - a) added) in *.
  assert (Ls : length sorted = S MAX_TIMESTAMPS_PER_TOPIC).
  { rewrite (Permutation_length Pd). subst added. rewrite length_app, Hlen. cbn [length]. lia. }
  set (kept := firstn MAX_TIMESTAMPS_PER_TOPIC sorted).
  assert (Lk : length kept = MAX_TIMESTAMPS_PER_TOPIC).
  { subst kept. rewrite length_firstn, Ls. lia. }
  destruct (skipn MAX_TIMESTAMPS_PER_TOPIC sorted) as [|oldest [|y tl]] eqn:Esk;
    try (apply (f_equal (@length float)) in Esk; rewrite length_skipn, Ls in Esk;
         cbn [length] in Esk; lia).
  assert (Esplit : sorted = kept ++ [oldest]).
  { subst kept. rewrite <- Esk. symmetry. apply firstn_skipn. }
  assert (NDs : List.NoDup sorted) by (eapply Permutation_NoDup; [symmetry; exact Pd|exact NDa]).
  assert (Cs : Forall canonical sorted)
    by (eapply Permutation_Forall; [symmetry; exact Pd|exact Ca]).
  rewrite Esplit in NDs, Cs, Sd, Pd.
  pose proof (List.NoDup_app_remove_r _ _ NDs) as NDk.
  apply (List.NoDup_remove_2 kept [] oldest) in NDs. rewrite app_nil_r in NDs.
  apply Forall_app in Cs as [Ck Co]. inversion Co as [|? ? Cold _]; subst.
  exists kept, oldest.
  assert (Eret : retain_own r messageEvent =
            mkRetention (<[topic := Set_of_array kept]> (updated r))
                        (delete topic (cache r)) true).
  { unfold retain_own, record_timestamp. cbv zeta. fold topic. fold timestamp. rewrite Hs.
    unfold Set_add. rewrite Ht. fold t'. fold added.
    replace (length s <? length added)%nat with true
      by (symmetry; apply Nat.ltb_lt; subst added; rewrite length_app; cbn [length]; lia).
    replace (MAX_TIMESTAMPS_PER_TOPIC <? length added)%nat with true
      by (symmetry; apply Nat.ltb_lt; subst added; rewrite length_app, Hlen; cbn [length]; lia).
    reflexivity. }
  rewrite Eret. simpl.
  rewrite (Set_of_array_canonical kept NDk Ck), lookup_insert_eq, lookup_delete_eq.
  destruct (canonical_is_Set kept NDk Ck) as [HSk HNk].
  repeat split; try reflexivity; try assumption.
  - apply StronglySorted_app_1_l in Sd. exact Sd.
  - pose proof (strongly_sorted_last kept oldest Sd) as Hge.
    rewrite List.Forall_forall in Hge, Ck |- *. intros x Hx.
    destruct (Ck x Hx) as [Nx Zx]. destruct Cold as [No Zo].
    rewrite (ltb_negb_leb oldest x No Nx).
    destruct (x <=? oldest) eqn:E; [|reflexivity]. exfalso.
    destruct (eqb_inv _ _ (leb_antisym _ _ E (Hge x Hx))) as [Exo|[Z1 Z2]].
    + subst x. now apply NDs.
    + unfold norm_zero in Zx, Zo. rewrite Z1 in Zx. rewrite Z2 in Zo.
      apply NDs. congruence.
Qed.


(** C7: when a channel's set holds 1000 distinct timestamps, inserting a
    1001st distinct timestamp leaves the 1000 most recent ones: the
    callback completes normally, the set becomes the first 1000 elements of
    the timestamps sorted descending, the single discarded timestamp is
    strictly older than every kept one, and the channel's cached summary
    entry is removed.  Hence after every insertion, and after every frame,
    each set holds at most 1000 timestamps; an insertion or a frame that
    does not complete throws on a topic that reaches the prototype.
    (Timestamps are times: they are not NaN; the sets retention builds from
    such timestamps stay well-formed sets of times.) *)
Theorem retain_truncates_at_cap (r : Retention) (messageEvent : MessageEvent) :
  (capped (updated r) ->
     match retain r messageEvent with
     | normal r' => capped (updated r')
     | throw_TypeError => reaches_prototype (updated r) (msg_topic messageEvent) = true
     end)
  /\ (is_nan (sec (receiveTime messageEvent) + nsec (receiveTime messageEvent) * 1e-9)
        = false ->
      sets_of_times (updated r) ->
      match retain r messageEvent with
      | normal r' => sets_of_times (updated r')
      | throw_TypeError => reaches_prototype (updated r) (msg_topic messageEvent) = true
      end)
  /\ (forall frame p, capped (topicTimestamps p) ->
        match onRender_frame frame p with
        | normal p' => capped (topicTimestamps p')
        | throw_TypeError => frame_reaches_prototype (topicTimestamps p) frame = true
        end)
  /\ (forall s : list float,
      let topic := msg_topic messageEvent in
      let timestamp :=
        sec (receiveTime messageEvent) + nsec (receiveTime messageEvent) * 1e-9 in
      updated r !! topic = Some s ->
      length s = MAX_TIMESTAMPS_PER_TOPIC ->
      is_Set s = true -> nan_free s = true ->
      is_nan timestamp = false -> Set_has s timestamp = false ->
      exists kept oldest r',
        retain r messageEvent = normal r'
        /\ updated r' !! topic = Some kept
        /\ length kept = MAX_TIMESTAMPS_PER_TOPIC
        /\ kept = firstn MAX_TIMESTAMPS_PER_TOPIC
                    (Array_sort (fun a b => b - a) (s ++ [norm_zero timestamp]))
        /\ Permutation (kept ++ [oldest]) (s ++ [norm_zero timestamp])
        /\ StronglySorted fge kept
        /\ Forall (fun x => (oldest <? x) = true) kept
        /\ is_Set kept = true /\ nan_free kept = true
        /\ cache r' !! topic = None
        /\ hasChanges r' = true).
Proof.
  split.
  { intros Hr. rewrite retain_spec.
    destruct (reaches_prototype _ _); [reflexivity|now apply retain_own_capped]. }
  split.
  { intros Nt Hr. rewrite retain_spec.
    destruct (reaches_prototype _ _); [reflexivity|now apply retain_own_sets_of_times]. }
  split.
  { intros frame p Hp. rewrite onRender_frame_spec.
    destruct (frame_reaches_prototype _ _); [reflexivity|].
    unfold frame_own. cbv zeta. simpl.
    destruct (hasChanges _); [|exact Hp].
    now apply fold_retain_own_capped. }
  intros s topic timestamp Hs Hlen HS HN Nt Ht.
  destruct (retain_own_truncates r messageEvent s Hs Hlen HS HN Nt Ht)
    as (kept & oldest & H).
  exists kept, oldest, (retain_own r messageEvent). split; [|exact H].
  rewrite retain_spec. fold topic. now rewrite (reaches_prototype_own _ _ _ Hs).
Qed.

(** An instance: the channel holding 1, ..., 1000 receives 1001. *)
Lemma retain_truncates_at_cap_witness :
  exists r', retain full_retention next_message = normal r' /\
  cache r' !! "/scan" = None /\
  exists kept, updated r' !! "/scan" = Some kept /\ length kept = 1000%nat.
Proof.
  destruct (retain_truncates_at_cap full_retention next_message) as (_ & _ & _ & H).
  destruct (H full_channel)
    as (kept & oldest & r' & H0 & H1 & H2 & _ & _ & _ & _ & _ & _ & H3 & _).
  - vm_compute. reflexivity.
  - vm_compute. reflexivity.
  - vm_compute. reflexivity.
  - vm_compute. reflexivity.
  - vm_compute. reflexivity.
  - vm_compute. reflexivity.
  - exists r'. split; [exact H0|]. split; [exact H3|].
    exists kept. split; [exact H1|exact H2].
Defined.

End Retain.

(** * Part VII: the statistics cache *)

Section CacheContract.
Local Open Scope float_scope.
Variable Array_sort_default : list float -> list float.

Lemma getCachedStats_hit topic p cached :
  statsCache p !! topic = Some cached ->
  (cached_lastUpdate cached =? fst (fingerprint (Object_get (topicTimestamps p) topic))) = true ->
  cached_timestampCount cached = snd (fingerprint (Object_get (topicTimestamps p) topic)) ->
  getCachedStats Array_sort_default topic p = (cached_stats cached, p).
Proof.
  intros Hc Hl Hn. unfold getCachedStats. cbv zeta.
  rewrite (Object_get_own _ _ _ Hc).
  destruct (Object_get (topicTimestamps p) topic) as [s|member|]; simpl in Hl, Hn;
    rewrite Hl, Hn, Nat.eqb_refl; reflexivity.
Qed.

Lemma getCachedStats_miss topic p :
  (forall cached, statsCache p !! topic = Some cached ->
     (cached_lastUpdate cached =? fst (fingerprint (Object_get (topicTimestamps p) topic)))
     = false \/
     cached_timestampCount cached <> snd (fingerprint (Object_get (topicTimestamps p) topic))) ->
  getCachedStats Array_sort_default topic p =
  (length (objects p),
   mkPanel (topicTimestamps p)
     (<[topic := mkCacheEntry (length (objects p))
                   (fst (fingerprint (Object_get (topicTimestamps p) topic)))
                   (snd (fingerprint (Object_get (topicTimestamps p) topic)))]> (statsCache p))
     (objects p ++
        [mkFrequencyStats topic
           (calculateFrequencyStats (outlierThreshold p)
              (timestamps_array Array_sort_default (Object_get (topicTimestamps p) topic)))])
     (outlierThreshold p)).
Proof.
  intros H. unfold getCachedStats. cbv zeta.
  assert (E : forall timestamps : Property (list float),
            (match timestamps with Own s => length s | _ => 0%nat end
             = snd (fingerprint timestamps))
            /\ (match timestamps with
                | Own s => Math_max s
                | Inherited member => Math_max (Array_from_member member)
                | Undefined => 0
                end = fst (fingerprint timestamps)))
    by (intros [s|member|]; split; reflexivity).
  destruct (E (Object_get (topicTimestamps p) topic)) as [-> ->].
  unfold Object_get at 1.
  destruct (statsCache p !! topic) as [cached|] eqn:Hc.
  - destruct (H cached eq_refl) as [Hl|Hn].
    + now rewrite Hl.
    + apply Nat.eqb_neq in Hn. now rewrite Hn, andb_false_r.
  - destruct (Object_prototype topic); reflexivity.
Qed.

(** Every call is a hit or a miss. *)
Lemma getCachedStats_cases topic p :
  let fp := fingerprint (Object_get (topicTimestamps p) topic) in
  (exists cached,
     statsCache p !! topic = Some cached
     /\ (cached_lastUpdate cached =? fst fp) = true
     /\ cached_timestampCount cached = snd fp
     /\ getCachedStats Array_sort_default topic p = (cached_stats cached, p))
  \/ getCachedStats Array_sort_default topic p =
     (length (objects p),
      mkPanel (topicTimestamps p)
        (<[topic := mkCacheEntry (length (objects p)) (fst fp) (snd fp)]> (statsCache p))
        (objects p ++
           [mkFrequencyStats topic
              (calculateFrequencyStats (outlierThreshold p)
                 (timestamps_array Array_sort_default
                    (Object_get (topicTimestamps p) topic)))])
        (outlierThreshold p)).
Proof.
  intros fp.
  destruct (statsCache p !! topic) as [cached|] eqn:Hc.
  - destruct ((cached_lastUpdate cached =? fst fp)
              && (cached_timestampCount cached =? snd fp)%nat) eqn:E.
    + apply andb_prop in E as [E1 E2]. apply Nat.eqb_eq in E2.
      left. exists cached. repeat split; try assumption.
      now apply getCachedStats_hit.
    + right. apply getCachedStats_miss.
      intros c Hc'. rewrite Hc in Hc'. inversion Hc'; subst c.
      apply andb_false_iff in E as [E|E]; [now left|right].
      now apply Nat.eqb_neq.
  - right. apply getCachedStats_miss. intros c Hc'. rewrite Hc in Hc'. discriminate.
Qed.

Lemma getCachedStats_timestamps topic p :
  topicTimestamps (snd (getCachedStats Array_sort_default topic p)) = topicTimestamps p.
Proof.
  destruct (getCachedStats_cases topic p) as [(c & _ & _ & _ & ->)| ->]; reflexivity.
Qed.

Lemma fingerprint_self (timestamps : Property (list float)) :
  (forall s, timestamps = Own s -> nan_free s = true) ->
  (forall member, timestamps <> Inherited member) ->
  (fst (fingerprint timestamps) =? fst (fingerprint timestamps)) = true.
Proof.
  intros H Hi. destruct timestamps as [s|member|]; simpl; [|now destruct (Hi member)|reflexivity].
  apply is_nan_false_eqb, Math_max_not_nan. now apply H.
Qed.

(** After a call on a topic that does not reach the prototype, the topic
    has an entry for the returned reference under the current fingerprint. *)
Lemma getCachedStats_entry t p :
  (forall s, topicTimestamps p !! t = Some s -> nan_free s = true) ->
  reaches_prototype (topicTimestamps p) t = false ->
  exists c,
    statsCache (snd (getCachedStats Array_sort_default t p)) !! t = Some c
    /\ cached_stats c = fst (getCachedStats Array_sort_default t p)
    /\ (cached_lastUpdate c =? fst (fingerprint (Object_get (topicTimestamps p) t))) = true
    /\ cached_timestampCount c = snd (fingerprint (Object_get (topicTimestamps p) t)).
Proof.
  intros Hn Hr.
  assert (Hfp : (fst (fingerprint (Object_get (topicTimestamps p) t))
                 =? fst (fingerprint (Object_get (topicTimestamps p) t))) = true).
  { apply fingerprint_self.
    - intros s Hs. apply Hn. rewrite (Object_get_not_inherited _ _ Hr) in Hs.
      destruct (topicTimestamps p !! t); [congruence|discriminate].
    - intros member Hm. unfold reaches_prototype in Hr. now rewrite Hm in Hr. }
  destruct (getCachedStats_cases t p) as [(c & Hc & Hl & Hcount & ->)| ->]; simpl.
  - exists c. repeat split; assumption.
  - eexists. rewrite lookup_insert_eq. repeat split; try reflexivity. exact Hfp.
Qed.

(** The maximum over the built-in found under a prototype name of positive
    [length] is NaN. *)
Lemma Math_max_undefined arity : Math_max (repeat nan (S arity)) = nan.
Proof. reflexivity. Qed.

(** An array of [undefined]s yields no rate. *)
Lemma computeRates_undefined n : computeRates (repeat nan n) = [].
Proof.
  rewrite computeRates_as_pairs.
  assert (H : Forall (fun x => x = nan) (Array_sort (fun a b => a - b) (repeat nan n))).
  { eapply Permutation_Forall; [symmetry; apply Array_sort_Permutation|].
    induction n; simpl; constructor; [reflexivity|assumption]. }
  induction H as [|x l -> Hl IH]; [reflexivity|].
  destruct Hl as [|y l -> Hl]; [reflexivity|].
  cbn [reference_rates]. cbv zeta.
  change (0 <? nan - nan) with false. cbv iota. exact IH.
Qed.

Lemma calculateFrequencyStats_undefined threshold n :
  calculateFrequencyStats threshold (repeat nan n) = zeroStats n [] 0%Z.
Proof.
  unfold calculateFrequencyStats. rewrite repeat_length, computeRates_undefined.
  cbv zeta. simpl. now destruct (n <? 2)%nat.
Qed.

(** C8: [getCachedStats] breaks its cache contract on a channel named like
    a built-in of [Object.prototype] that has parameters ([constructor],
    [hasOwnProperty], ...).  The panel holds no set under such a name, the
    lookup of line 159 finds the built-in, and the fingerprint is (NaN, 0),
    which equals no stored fingerprint: every call recomputes, allocates a
    new object reporting as many messages as the built-in has parameters,
    and stores it under a [lastUpdate] of NaN.  Two calls with no retention
    in between return two different objects. *)
Theorem getCachedStats_prototype_topic_recomputes (topic : string) (arity : nat)
    (p : Panel) :
  topicTimestamps p !! topic = None ->
  Object_prototype topic = Some (builtin_function (S arity)) ->
  let r1 := fst (getCachedStats Array_sort_default topic p) in
  let p1 := snd (getCachedStats Array_sort_default topic p) in
  let r2 := fst (getCachedStats Array_sort_default topic p1) in
  let p2 := snd (getCachedStats Array_sort_default topic p1) in
  r1 = length (objects p)
  /\ r2 = S r1
  /\ r2 <> r1
  /\ objects p2
     = objects p ++ [mkFrequencyStats topic (zeroStats (S arity) [] 0%Z);
                     mkFrequencyStats topic (zeroStats (S arity) [] 0%Z)]
  /\ (exists cached, statsCache p1 !! topic = Some cached
                     /\ is_nan (cached_lastUpdate cached) = true
                     /\ cached_timestampCount cached = 0%nat)
  /\ p2 <> p1.
Proof.
  intros Hnone Hproto.
  assert (Hget : forall q, topicTimestamps q = topicTimestamps p ->
            Object_get (topicTimestamps q) topic = Inherited (builtin_function (S arity))).
  { intros q ->. unfold Object_get. now rewrite Hnone, Hproto. }
  assert (Hcall : forall q, topicTimestamps q = topicTimestamps p ->
            getCachedStats Array_sort_default topic q
            = (length (objects q),
               mkPanel (topicTimestamps q)
                 (<[topic := mkCacheEntry (length (objects q)) nan 0%nat]> (statsCache q))
                 (objects q ++ [mkFrequencyStats topic (zeroStats (S arity) [] 0%Z)])
                 (outlierThreshold q))).
  { intros q Hq. rewrite getCachedStats_miss.
    - rewrite (Hget q Hq). cbn [fingerprint fst snd timestamps_array Array_from_member].
      now rewrite Math_max_undefined, calculateFrequencyStats_undefined.
    - intros cached _. left. rewrite (Hget q Hq).
      cbn [fingerprint fst Array_from_member]. rewrite Math_max_undefined.
      rewrite FloatAxioms.eqb_spec. change (Prim2SF nan) with S754_nan.
      now destruct (Prim2SF (cached_lastUpdate cached)). }
  intros r1 p1 r2 p2. subst r1 p1 r2 p2.
  rewrite (Hcall p eq_refl). cbn [fst snd].
  rewrite Hcall by reflexivity. cbn [fst snd objects statsCache].
  rewrite length_app. cbn [length].
  split; [reflexivity|]. split; [lia|]. split; [lia|]. split.
  - now rewrite <- app_assoc.
  - split.
    + eexists. rewrite lookup_insert_eq. repeat split; reflexivity.
    + intros E. apply (f_equal (fun q => length (objects q))) in E.
      cbn [objects] in E. rewrite !length_app in E. cbn [length] in E. lia.
Qed.

(** X20: the cache contract where it holds.  If the channel has a cached entry
    whose fingerprint equals the current one, the stored summary object is
    returned and nothing is computed or stored.  Otherwise the summary is
    recomputed by computeRates, removeOutliers and summarize, allocated as
    a new object and stored under the new fingerprint.  On a channel whose
    lookup does not reach the prototype (and whose timestamps are times:
    not NaN), two calls with no retention in between return the identical
    object, the second leaving the panel untouched. *)
Theorem getCachedStats_contract (topic : string) (p : Panel) :
  let fp := fingerprint (Object_get (topicTimestamps p) topic) in
  let timestamps :=
    timestamps_array Array_sort_default (Object_get (topicTimestamps p) topic) in
  (forall cached, statsCache p !! topic = Some cached ->
     (cached_lastUpdate cached =? fst fp) = true ->
     cached_timestampCount cached = snd fp ->
     getCachedStats Array_sort_default topic p = (cached_stats cached, p))
  /\ ((forall cached, statsCache p !! topic = Some cached ->
         (cached_lastUpdate cached =? fst fp) = false \/
         cached_timestampCount cached <> snd fp) ->
      let r := fst (getCachedStats Array_sort_default topic p) in
      let p' := snd (getCachedStats Array_sort_default topic p) in
      r = length (objects p)
      /\ objects p' = objects p ++
           [mkFrequencyStats topic
              (summarize (length timestamps) (computeRates timestamps)
                 (removeOutliers (computeRates timestamps) (outlierThreshold p)))]
      /\ nth_error (objects p') r =
           Some (mkFrequencyStats topic
                   (summarize (length timestamps) (computeRates timestamps)
                      (removeOutliers (computeRates timestamps) (outlierThreshold p))))
      /\ statsCache p' = <[topic := mkCacheEntry r (fst fp) (snd fp)]> (statsCache p)
      /\ topicTimestamps p' = topicTimestamps p
      /\ outlierThreshold p' = outlierThreshold p)
  /\ ((forall s, topicTimestamps p !! topic = Some s -> nan_free s = true) ->
      reaches_prototype (topicTimestamps p) topic = false ->
      let r1 := fst (getCachedStats Array_sort_default topic p) in
      let p1 := snd (getCachedStats Array_sort_default topic p) in
      getCachedStats Array_sort_default topic p1 = (r1, p1)).
Proof.
  intros fp timestamps. split; [apply getCachedStats_hit|]. split.
  - intros H r p'. subst r p'. rewrite (getCachedStats_miss topic p H). simpl.
    fold timestamps. rewrite calculateFrequencyStats_pipeline.
    repeat split; try reflexivity.
    rewrite nth_error_app2 by lia. now rewrite Nat.sub_diag.
  - intros Hn Hr r1 p1. subst r1 p1.
    destruct (getCachedStats_entry topic p Hn Hr) as (c & Hc & Hs & Hl & Hcount).
    rewrite <- Hs. apply getCachedStats_hit;
      rewrite ?(getCachedStats_timestamps topic p); assumption.
Qed.

End CacheContract.

(** An instance: two consecutive calls for "constructor" on a panel that
    has received nothing on that topic. *)
Lemma getCachedStats_prototype_topic_recomputes_witness :
  fst (getCachedStats (fun l => l) "constructor"
         (snd (getCachedStats (fun l => l) "constructor" sample_panel)))
  <> fst (getCachedStats (fun l => l) "constructor" sample_panel)
  /\ objects (snd (getCachedStats (fun l => l) "constructor"
                     (snd (getCachedStats (fun l => l) "constructor" sample_panel))))
     = [mkFrequencyStats "constructor" (zeroStats 1 [] 0%Z);
        mkFrequencyStats "constructor" (zeroStats 1 [] 0%Z)].
Proof.
  destruct (getCachedStats_prototype_topic_recomputes (fun l => l) "constructor" 0
              sample_panel) as (_ & _ & H1 & H2 & _).
  - reflexivity.
  - reflexivity.
  - split; [exact H1|exact H2].
Defined.

(** An instance: two consecutive calls on a panel with one channel. *)
Lemma getCachedStats_contract_witness :
  getCachedStats (fun l => l) "/imu"
    (snd (getCachedStats (fun l => l) "/imu" sample_panel))
  = (fst (getCachedStats (fun l => l) "/imu" sample_panel),
     snd (getCachedStats (fun l => l) "/imu" sample_panel)).
Proof.
  destruct (getCachedStats_contract (fun l => l) "/imu" sample_panel) as (_ & _ & H).
  apply H.
  - intros s Hs. vm_compute in Hs. inversion Hs. reflexivity.
  - reflexivity.
Defined.

(** * Part VIII: more on the statistics pipeline *)

Section PipelineMore.
Local Open Scope float_scope.

Lemma reference_rates_length l :
  (length (reference_rates l) <= length l - 1)%nat.
Proof.
  induction l as [|a [|b l] IH]; simpl; try lia.
  simpl in IH. destruct (0 <? b - a); simpl; lia.
Qed.

(** Rounding a non-negative mantissa gives a zero, a finite value or an
    infinity of the requested sign. *)
Lemma binary_round_aux_signed sx mx ex lx :
  (0 <= mx)%Z ->
  match binary_round_aux prec emax sx mx ex lx with
  | S754_zero s | S754_infinity s | S754_finite s _ _ => s = sx
  | S754_nan => False
  end.
Proof.
  intros H. unfold binary_round_aux.
  pose proof (shr_fexp_nonneg mx ex lx H) as H1.
  destruct (shr_fexp prec emax mx ex lx) as [mrs' e']. simpl in H1.
  pose proof (round_nearest_even_nonneg _ (loc_of_shr_record mrs') H1) as H2.
  pose proof (shr_fexp_nonneg _ e' loc_Exact H2) as H3.
  destruct (shr_fexp prec emax
              (round_nearest_even (shr_m mrs') (loc_of_shr_record mrs')) e' loc_Exact)
    as [mrs'' e'']. simpl in H3.
  destruct (shr_m mrs'') as [|m|m]; [reflexivity| |lia].
  destruct (e'' <=? emax - prec)%Z; reflexivity.
Qed.

Lemma reciprocal_nonneg d : (0 <? d) = true -> (0 <=? 1 / d) = true.
Proof.
  rewrite FloatAxioms.ltb_spec, FloatAxioms.leb_spec, div_spec.
  change (Prim2SF 0) with (S754_zero false).
  change (Prim2SF 1) with (S754_finite false 4503599627370496 (-52)).
  destruct (Prim2SF d) as [s|[|]| |[|] m e]; try discriminate; intros _;
    [reflexivity|].
  unfold SF64div, SFdiv.
  pose proof (SFdiv_core_binary_nonneg 4503599627370496 (-52) m e) as Hq.
  destruct (SFdiv_core_binary prec emax 4503599627370496 (-52) (Zpos m) e) as [[mz ez] lz].
  pose proof (binary_round_aux_signed (xorb false false) mz ez lz Hq) as Hs.
  destruct (binary_round_aux prec emax (xorb false false) mz ez lz) as [s|s| |s m' e'];
    try contradiction; simpl in Hs; subst s; reflexivity.
Qed.

Lemma reference_rates_nonneg l :
  Forall (fun r => (0 <=? r) = true) (reference_rates l).
Proof.
  induction l as [|a [|b l] IH]; try constructor.
  cbn [reference_rates]. cbv zeta. destruct (0 <? b - a) eqn:E; [|exact IH].
  constructor; [now apply reciprocal_nonneg|exact IH].
Qed.

(** A sorted array of distinct canonical numbers is strictly increasing. *)
Lemma sorted_distinct_increasing l :
  StronglySorted fle l -> List.NoDup l -> Forall canonical l ->
  strictly_increasing l = true.
Proof.
  induction 1 as [|a l Hs IH Ha]; intros ND Hc; [reflexivity|].
  inversion ND as [|? ? Hnin ND']; subst. inversion Hc as [|? ? Ca Hc']; subst.
  destruct l as [|b l]; [reflexivity|].
  change (strictly_increasing (a :: b :: l))
    with ((a <? b) && strictly_increasing (b :: l)).
  rewrite (IH ND' Hc'), andb_true_r.
  inversion Ha as [|? ? Hab _]; subst. inversion Hc' as [|? ? Cb _]; subst.
  destruct Ca as [Na Za], Cb as [Nb Zb].
  rewrite (ltb_negb_leb a b Na Nb). destruct (b <=? a) eqn:E; [|reflexivity].
  exfalso. apply Hnin.
  destruct (eqb_inv _ _ (leb_antisym _ _ Hab E)) as [->|[Z1 Z2]]; [now left|].
  unfold norm_zero in Za, Zb. rewrite Z1 in Za. rewrite Z2 in Zb. left. congruence.
Qed.

(** X1: the counts of a statistics record are consistent for every input:
    [messageCount] is the number of timestamps, there are at most
    [messageCount - 1] rates, and the rates split into the filtered ones and
    [outlierCount] others, with [0 <= outlierCount]. *)
Theorem statistics_accounting (threshold : float) (timestamps : list float) :
  let s := calculateFrequencyStats threshold timestamps in
  messageCount s = length timestamps
  /\ (length (frequencies s) <= length timestamps - 1)%nat
  /\ (0 <= outlierCount s)%Z
  /\ (Z.of_nat (length (filteredFrequencies s)) + outlierCount s
      = Z.of_nat (length (frequencies s)))%Z.
Proof.
  intros s. subst s. rewrite calculateFrequencyStats_pipeline.
  destruct (summarize_fields (length timestamps) (computeRates timestamps)
              (removeOutliers (computeRates timestamps) threshold))
    as (-> & -> & -> & ->).
  pose proof (sublist_length _ _ (removeOutliers_sublist (computeRates timestamps) threshold)).
  split; [reflexivity|]. split.
  - rewrite computeRates_as_pairs.
    etransitivity; [apply reference_rates_length|]. now rewrite Array_sort_length.
  - split; lia.
Qed.

(** X2: whatever the timestamps (NaN included), every rate of a statistics
    record, raw or filtered, is a number that is not NaN and not negative. *)
Theorem rates_are_nonnegative_numbers (threshold : float) (timestamps : list float) :
  let s := calculateFrequencyStats threshold timestamps in
  Forall (fun r => is_nan r = false /\ (0 <=? r) = true) (frequencies s)
  /\ Forall (fun r => is_nan r = false /\ (0 <=? r) = true) (filteredFrequencies s).
Proof.
  intros s. subst s. rewrite calculateFrequencyStats_pipeline.
  destruct (summarize_fields (length timestamps) (computeRates timestamps)
              (removeOutliers (computeRates timestamps) threshold))
    as (-> & -> & _).
  assert (H : Forall (fun r => is_nan r = false /\ (0 <=? r) = true)
                (computeRates timestamps)).
  { rewrite computeRates_as_pairs. apply List.Forall_forall. intros r Hr.
    pose proof (reference_rates_nonneg (Array_sort (fun a b => a - b) timestamps)) as Hn.
    rewrite List.Forall_forall in Hn. split; [|now apply Hn].
    now destruct (leb_not_nan _ _ (Hn r Hr)). }
  split; [exact H|].
  apply List.Forall_forall. intros r Hr. rewrite List.Forall_forall in H. apply H.
  apply list_elem_of_In. apply list_elem_of_In in Hr.
  eapply elem_of_sublist; [exact Hr|apply removeOutliers_sublist].
Qed.

(** X3: the timestamps of a [Set] of times (pairwise distinct, not NaN)
    yield exactly one rate per consecutive pair, in whatever order the
    array lists them: [N] timestamps give [N - 1] rates. *)
Theorem distinct_timestamps_rate_count (threshold : float) (timestamps : list float) :
  is_Set timestamps = true -> nan_free timestamps = true ->
  length (computeRates timestamps) = (length timestamps - 1)%nat
  /\ length (frequencies (calculateFrequencyStats threshold timestamps))
     = (length timestamps - 1)%nat.
Proof.
  intros HS HN. destruct (is_Set_canonical _ HS HN) as [ND Hc].
  destruct (sort_ascending _ HN) as [Hs HP].
  assert (E : length (computeRates timestamps) = (length timestamps - 1)%nat).
  { rewrite computeRates_as_pairs.
    destruct (reference_rates_increasing (Array_sort (fun a b => a - b) timestamps))
      as [Hl _].
    - apply sorted_distinct_increasing; [exact Hs| |].
      + eapply Permutation_NoDup; [symmetry; exact HP|exact ND].
      + eapply Permutation_Forall; [symmetry; exact HP|exact Hc].
    - now rewrite Hl, Array_sort_length. }
  split; [exact E|].
  rewrite calculateFrequencyStats_pipeline.
  destruct (summarize_fields (length timestamps) (computeRates timestamps)
              (removeOutliers (computeRates timestamps) threshold)) as (-> & _).
  exact E.
Qed.

(** An instance: five distinct timestamps out of order. *)
Lemma distinct_timestamps_rate_count_witness :
  length (computeRates [5; 1; 3; 2; 8]) = 4%nat.
Proof.
  exact (proj1 (distinct_timestamps_rate_count 2 [5; 1; 3; 2; 8] eq_refl eq_refl)).
Defined.

End PipelineMore.

(** * Part IX: more on timestamp retention *)

Section RetainMore.
Local Open Scope float_scope.

Lemma retain_own_duplicate r messageEvent s :
  updated r !! msg_topic messageEvent = Some s ->
  Set_has s (timestamp_of messageEvent) = true ->
  retain_own r messageEvent = r.
Proof.
  intros Hs Hh. unfold retain_own, record_timestamp, timestamp_of in *. cbv zeta. rewrite Hs.
  unfold Set_add. rewrite Hh, Nat.ltb_irrefl, (insert_id _ _ _ Hs).
  now destruct r.
Qed.

(** X4: a frame whose messages carry only timestamps their channels already
    hold changes nothing: the updater completes and returns the previous
    panel state itself ([hasChanges] stays false, no set and no cache entry
    is touched). *)
Theorem frame_of_known_timestamps_is_noop (frame : list MessageEvent) (p : Panel) :
  Forall (fun messageEvent =>
            exists s, topicTimestamps p !! msg_topic messageEvent = Some s /\
                      Set_has s (timestamp_of messageEvent) = true) frame ->
  onRender_frame frame p = normal p.
Proof.
  intros H. rewrite onRender_frame_spec.
  replace (frame_reaches_prototype (topicTimestamps p) frame) with false.
  2:{ symmetry. unfold frame_reaches_prototype.
      induction H as [|ev frame (s & Hs & _) _ IH]; [reflexivity|].
      cbn [existsb]. now rewrite (reaches_prototype_own _ _ _ Hs), IH. }
  f_equal. unfold frame_own. cbv zeta.
  assert (E : fold_left retain_own frame
                (mkRetention (topicTimestamps p) (statsCache p) false)
              = mkRetention (topicTimestamps p) (statsCache p) false).
  { induction H as [|ev frame (s & Hs & Hh) _ IH]; [reflexivity|].
    simpl. rewrite (retain_own_duplicate _ ev s); [exact IH|exact Hs|exact Hh]. }
  rewrite E. simpl. now destruct p.
Qed.

(** An instance: the channel of [sample_panel] receives 2 and 4.5 again. *)
Lemma frame_of_known_timestamps_is_noop_witness :
  onRender_frame
    [mkMessageEvent "/imu" (mkTime 2 0); mkMessageEvent "/imu" (mkTime 4.5 0)]
    sample_panel
  = normal sample_panel.
Proof.
  apply frame_of_known_timestamps_is_noop.
  repeat constructor; exists [1; 2; 4; 4.5]%float; split; vm_compute; reflexivity.
Defined.

Lemma retain_own_other_topic r messageEvent t :
  t <> msg_topic messageEvent ->
  updated (retain_own r messageEvent) !! t = updated r !! t /\
  cache (retain_own r messageEvent) !! t = cache r !! t.
Proof.
  intros Hne. unfold retain_own, record_timestamp. cbv zeta.
  repeat match goal with |- context [if ?c then _ else _] => destruct c end; simpl;
    rewrite ?lookup_insert_ne, ?lookup_delete_ne by congruence; split; reflexivity.
Qed.

Lemma frame_own_other_topics frame p t :
  Forall (fun messageEvent => msg_topic messageEvent <> t) frame ->
  topicTimestamps (frame_own frame p) !! t = topicTimestamps p !! t /\
  statsCache (frame_own frame p) !! t = statsCache p !! t.
Proof.
  intros H. unfold frame_own. cbv zeta. simpl.
  assert (E : forall r,
            updated (fold_left retain_own frame r) !! t = updated r !! t /\
            cache (fold_left retain_own frame r) !! t = cache r !! t).
  { induction H as [|ev frame Hev _ IH]; intros r; [split; reflexivity|].
    simpl. destruct (IH (retain_own r ev)) as [-> ->].
    apply retain_own_other_topic. congruence. }
  destruct (E (mkRetention (topicTimestamps p) (statsCache p) false)) as [E1 E2].
  split; [|exact E2].
  destruct (hasChanges _); [exact E1|reflexivity].
Qed.

(** X5: retention is per channel: a frame that completes leaves the
    timestamp set and the cache entry of every channel it carries no
    message for exactly as they were (a frame that does not complete
    throws on a topic that reaches the prototype). *)
Theorem frame_touches_only_its_topics (frame : list MessageEvent) (p : Panel) (t : string) :
  Forall (fun messageEvent => msg_topic messageEvent <> t) frame ->
  match onRender_frame frame p with
  | normal p' =>
      topicTimestamps p' !! t = topicTimestamps p !! t /\
      statsCache p' !! t = statsCache p !! t
  | throw_TypeError => frame_reaches_prototype (topicTimestamps p) frame = true
  end.
Proof.
  intros H. rewrite onRender_frame_spec.
  destruct (frame_reaches_prototype _ _); [reflexivity|].
  now apply frame_own_other_topics.
Qed.

(** An instance: a message on "/scan" leaves "/imu" alone. *)
Lemma frame_touches_only_its_topics_witness :
  exists p', onRender_frame [next_message] sample_panel = normal p' /\
             topicTimestamps p' !! "/imu" = topicTimestamps sample_panel !! "/imu".
Proof.
  assert (T := frame_touches_only_its_topics [next_message] sample_panel "/imu").
  destruct (onRender_frame [next_message] sample_panel) as [p'|].
  - exists p'. split; [reflexivity|]. apply T.
    repeat constructor. vm_compute. discriminate.
  - assert (F : frame_reaches_prototype (topicTimestamps sample_panel) [next_message] = true).
    { apply T. repeat constructor. vm_compute. discriminate. }
    vm_compute in F. discriminate.
Defined.

Lemma SameValueZero_norm_zero_self x : SameValueZero x (norm_zero x) = true.
Proof.
  unfold SameValueZero. rewrite norm_zero_nan.
  destruct (is_nan x) eqn:N; [now rewrite orb_true_r|].
  rewrite orb_false_r. unfold norm_zero. destruct (is_zero x) eqn:Z.
  - exact Z.
  - now apply is_nan_false_eqb.
Qed.

Lemma Set_has_app s1 s2 x : Set_has (s1 ++ s2) x = Set_has s1 x || Set_has s2 x.
Proof. unfold Set_has. apply existsb_app. Qed.

(** Adding to a [Set] records the number and forgets none. *)
Lemma Set_add_has s x :
  Set_has (Set_add s x) x = true /\
  (forall y, Set_has s y = true -> Set_has (Set_add s x) y = true).
Proof.
  unfold Set_add. destruct (Set_has s x) eqn:E.
  - split; [exact E|auto].
  - split.
    + rewrite Set_has_app. unfold Set_has at 2. simpl.
      now rewrite SameValueZero_norm_zero_self, orb_true_r.
    + intros y Hy. now rewrite Set_has_app, Hy.
Qed.

(** X6: below the cap retention is an insertion that loses nothing.  On a
    topic whose lookup does not reach the prototype and whose channel holds
    fewer than 1000 timestamps, the callback completes; afterwards the
    channel's set holds the message's timestamp and every timestamp it held
    before, has grown by at most one, and the cache is left as it was.  On
    a topic whose lookup reaches the prototype the callback throws. *)
Theorem retain_below_cap_records (r : Retention) (messageEvent : MessageEvent) :
  let topic := msg_topic messageEvent in
  let current := match updated r !! topic with Some s => s | None => [] end in
  (reaches_prototype (updated r) topic = false ->
   (length current < MAX_TIMESTAMPS_PER_TOPIC)%nat ->
   exists s' r',
     retain r messageEvent = normal r'
     /\ updated r' !! topic = Some s'
     /\ Set_has s' (timestamp_of messageEvent) = true
     /\ (forall x, Set_has current x = true -> Set_has s' x = true)
     /\ (length current <= length s' <= length current + 1)%nat
     /\ cache r' = cache r)
  /\ (reaches_prototype (updated r) topic = true ->
      retain r messageEvent = throw_TypeError).
Proof.
  intros topic current. split; [|intros Hp; rewrite retain_spec; fold topic; now rewrite Hp].
  intros Hp Hlt.
  exists (Set_add current (timestamp_of messageEvent)), (retain_own r messageEvent).
  split; [rewrite retain_spec; fold topic; now rewrite Hp|].
  destruct (Set_add_has current (timestamp_of messageEvent)) as [H1 H2].
  pose proof (Set_add_length current (timestamp_of messageEvent)) as Hl.
  assert (Hge : (length current <= length (Set_add current (timestamp_of messageEvent)))%nat).
  { unfold Set_add. destruct (Set_has current (timestamp_of messageEvent)); [lia|].
    rewrite length_app. lia. }
  assert (E : updated (retain_own r messageEvent) !! topic
              = Some (Set_add current (timestamp_of messageEvent)) /\
              cache (retain_own r messageEvent) = cache r).
  { unfold retain_own, record_timestamp, timestamp_of in *. cbv zeta. fold topic. fold current.
    destruct (length current <? length (Set_add current _))%nat.
    - replace (MAX_TIMESTAMPS_PER_TOPIC <? length (Set_add current _))%nat with false
        by (symmetry; apply Nat.ltb_ge; lia).
      simpl. now rewrite lookup_insert_eq.
    - simpl. now rewrite lookup_insert_eq. }
  destruct E as [E1 E2]. repeat split; try assumption; lia.
Qed.

(** An instance: the channel "/imu" of [sample_panel], holding 1, 2, 4 and
    4.5, receives 7 and holds 7 and all four afterwards. *)
Lemma retain_below_cap_records_witness :
  exists s' r',
    retain (mkRetention (topicTimestamps sample_panel) ∅ false)
      (mkMessageEvent "/imu" (mkTime 7 0)) = normal r'
    /\ updated r' !! "/imu" = Some s'
    /\ Set_has s' 7 = true
    /\ forallb (Set_has s') [1; 2; 4; 4.5] = true.
Proof.
  destruct (proj1 (retain_below_cap_records
                     (mkRetention (topicTimestamps sample_panel) ∅ false)
                     (mkMessageEvent "/imu" (mkTime 7 0))))
    as (s' & r' & H0 & H1 & H2 & H3 & _).
  - reflexivity.
  - vm_compute. repeat constructor.
  - exists s', r'. split; [exact H0|]. split; [exact H1|]. split; [exact H2|].
    cbn [forallb]. rewrite !H3 by reflexivity. reflexivity.
Defined.

(** A topic reaches the prototype after a frame exactly if it did before. *)
Lemma fold_retain_own_reaches frame : forall r t,
  frame_reaches_prototype (updated r) frame = false ->
  reaches_prototype (updated (fold_left retain_own frame r)) t
  = reaches_prototype (updated r) t.
Proof.
  induction frame as [|ev frame IH]; intros r t H; [reflexivity|].
  unfold frame_reaches_prototype in H. cbn [existsb] in H.
  apply orb_false_iff in H as [Hev H]. cbn [fold_left].
  rewrite IH.
  - now apply retain_own_reaches.
  - unfold frame_reaches_prototype. rewrite <- H. clear IH H.
    induction frame as [|ev' frame IH']; [reflexivity|]. cbn [existsb].
    now rewrite (retain_own_reaches r ev (msg_topic ev') Hev), IH'.
Qed.

(** X19: a channel named like a member of [Object.prototype] breaks the
    panel.  A frame throws a TypeError exactly when it carries a message on
    a topic under which the panel holds no set and which names a member of
    [Object.prototype] ("constructor", "toString", "__proto__", ...).  A
    frame that completes creates no set under such a name, so the next
    message on that topic throws as well. *)
Theorem frame_on_prototype_topic_throws (frame : list MessageEvent) (p : Panel) :
  (onRender_frame frame p = throw_TypeError <->
   Exists (fun messageEvent =>
             topicTimestamps p !! msg_topic messageEvent = None /\
             exists member, Object_prototype (msg_topic messageEvent) = Some member)
     frame)
  /\ (forall p', onRender_frame frame p = normal p' ->
      forall t, reaches_prototype (topicTimestamps p') t
                = reaches_prototype (topicTimestamps p) t)
  /\ (forall time, topicTimestamps p !! "constructor"%string = None ->
      onRender_frame (frame ++ [mkMessageEvent "constructor" time]) p = throw_TypeError).
Proof.
  assert (Hex : forall m : gmap string (list float),
            frame_reaches_prototype m frame = true <->
            Exists (fun messageEvent =>
                      m !! msg_topic messageEvent = None /\
                      exists member, Object_prototype (msg_topic messageEvent) = Some member)
              frame).
  { intros m. unfold frame_reaches_prototype. rewrite existsb_exists, List.Exists_exists.
    split; intros (ev & Hin & H); exists ev; (split; [exact Hin|]);
      now apply reaches_prototype_spec. }
  split; [|split].
  - rewrite <- Hex, onRender_frame_spec.
    destruct (frame_reaches_prototype _ _); split; congruence.
  - intros p' H t. rewrite onRender_frame_spec in H.
    destruct (frame_reaches_prototype (topicTimestamps p) frame) eqn:E; [discriminate|].
    inversion H; subst p'. unfold frame_own. cbv zeta. cbn [topicTimestamps].
    destruct (hasChanges _); [|reflexivity].
    now rewrite fold_retain_own_reaches.
  - intros time Hnone. rewrite onRender_frame_spec.
    replace (frame_reaches_prototype (topicTimestamps p)
               (frame ++ [mkMessageEvent "constructor" time])) with true; [reflexivity|].
    symmetry. unfold frame_reaches_prototype. rewrite existsb_app. cbn [existsb msg_topic].
    replace (reaches_prototype (topicTimestamps p) "constructor") with true.
    + now rewrite orb_true_r.
    + symmetry. apply reaches_prototype_spec. split; [exact Hnone|].
      eexists. reflexivity.
Qed.

(** An instance: the first message on the topic "constructor". *)
Lemma frame_on_prototype_topic_throws_witness :
  onRender_frame [mkMessageEvent "constructor" (mkTime 1 0)] sample_panel
  = throw_TypeError.
Proof.
  exact (proj2 (proj2 (frame_on_prototype_topic_throws [] sample_panel))
           (mkTime 1 0) eq_refl).
Defined.

End RetainMore.

(** * Part X: more on the statistics cache *)

Section CacheMore.
Local Open Scope float_scope.
Variable Array_sort_default : list float -> list float.

Lemma deref_app p r o extra :
  deref p r = Some o ->
  nth_error (objects p ++ extra) r = Some o.
Proof.
  unfold deref. intros H. rewrite nth_error_app1; [exact H|].
  apply nth_error_Some. congruence.
Qed.

Lemma fingerprint_count (obj : gmap string (list float)) (t : string) :
  snd (fingerprint (Object_get obj t))
  = length (match obj !! t with Some s => s | None => [] end).
Proof.
  unfold Object_get. destruct (obj !! t); [reflexivity|].
  destruct (Object_prototype t); reflexivity.
Qed.

(** What [getCachedStats] does, in either case: the store is extended by at
    most the recomputed object, the returned reference points to an object
    of the requested topic if the cache was coherent, and only the
    requested topic's entry may change. *)
Lemma getCachedStats_effect t p :
  let r := fst (getCachedStats Array_sort_default t p) in
  let p' := snd (getCachedStats Array_sort_default t p) in
  (exists extra, objects p' = objects p ++ extra)
  /\ topicTimestamps p' = topicTimestamps p
  /\ outlierThreshold p' = outlierThreshold p
  /\ (forall t', t' <> t -> statsCache p' !! t' = statsCache p !! t')
  /\ (exists c, statsCache p' !! t = Some c /\ cached_stats c = r
                /\ (cached_timestampCount c
                    = length (match topicTimestamps p !! t with Some s => s | None => [] end)))
  /\ (cache_coherent p -> exists o, deref p' r = Some o /\ topic o = t).
Proof.
  intros r p'. subst r p'.
  destruct (getCachedStats_cases Array_sort_default t p)
    as [(cached & Hc & _ & E2 & ->)| ->]; simpl.
  - split; [exists []; now rewrite app_nil_r|]. split; [reflexivity|].
    split; [reflexivity|]. split; [reflexivity|]. split.
    + exists cached. split; [exact Hc|]. split; [reflexivity|].
      rewrite E2. apply fingerprint_count.
    + intros Hco. exact (Hco t cached Hc).
  - split; [eauto|]. split; [reflexivity|]. split; [reflexivity|].
    split; [intros t' Ht'; now rewrite lookup_insert_ne by congruence|]. split.
    + eexists. rewrite lookup_insert_eq. split; [reflexivity|]. split; [reflexivity|].
      simpl. apply fingerprint_count.
    + intros _. eexists. unfold deref. simpl.
      rewrite nth_error_app2 by lia. rewrite Nat.sub_diag. simpl. split; reflexivity.
Qed.

Lemma getCachedStats_keeps_coherent t p :
  cache_coherent p -> cache_coherent (snd (getCachedStats Array_sort_default t p)).
Proof.
  intros Hco.
  destruct (getCachedStats_effect t p)
    as ((extra & Hobj) & _ & _ & Hother & (c & Hc & Hr & _) & Hnew).
  destruct (Hnew Hco) as (o & Ho & Hto).
  intros t' c' Hc'. destruct (decide (t' = t)) as [->|Hne].
  - rewrite Hc in Hc'. inversion Hc'; subst c'. rewrite Hr. eauto.
  - rewrite (Hother t' Hne) in Hc'. destruct (Hco t' c' Hc') as (o' & Ho' & Hto').
    exists o'. split; [|exact Hto']. unfold deref. rewrite Hobj.
    now apply deref_app.
Qed.

Lemma fold_retain_own_cache_subset frame : forall r t c,
  cache (fold_left retain_own frame r) !! t = Some c -> cache r !! t = Some c.
Proof.
  induction frame as [|ev frame IH]; intros r t c H; [exact H|].
  simpl in H. apply IH in H. revert H. unfold retain_own, record_timestamp. cbv zeta.
  repeat match goal with |- context [if ?b then _ else _] => destruct b end; simpl;
    try tauto.
  intros H. apply lookup_delete_Some in H. tauto.
Qed.

Lemma cache_stays_coherent_aux t p :
  cache_coherent p ->
  cache_coherent (snd (getCachedStats Array_sort_default t p))
  /\ (exists o, deref (snd (getCachedStats Array_sort_default t p))
                  (fst (getCachedStats Array_sort_default t p)) = Some o /\ topic o = t)
  /\ (forall r0 o, deref p r0 = Some o ->
                   deref (snd (getCachedStats Array_sort_default t p)) r0 = Some o).
Proof.
  intros Hco.
  destruct (getCachedStats_effect t p) as ((extra & Hobj) & _ & _ & _ & _ & Hnew).
  split; [now apply getCachedStats_keeps_coherent|]. split; [now apply Hnew|].
  intros r0 o H. unfold deref. rewrite Hobj. now apply deref_app.
Qed.

(** X7: the cache never dangles.  If every cache entry refers to a stored
    object carrying the entry's topic, this still holds after any frame
    (one that does not complete throws on a topic that reaches the
    prototype) and after any [getCachedStats], whose returned reference
    points to an object of the requested topic while every older reference
    keeps its object. *)
Theorem cache_stays_coherent (p : Panel) :
  cache_coherent p ->
  (forall frame,
     match onRender_frame frame p with
     | normal p' => cache_coherent p'
     | throw_TypeError => frame_reaches_prototype (topicTimestamps p) frame = true
     end)
  /\ (forall t,
        let r := fst (getCachedStats Array_sort_default t p) in
        let p' := snd (getCachedStats Array_sort_default t p) in
        cache_coherent p'
        /\ (exists o, deref p' r = Some o /\ topic o = t)
        /\ (forall r0 o, deref p r0 = Some o -> deref p' r0 = Some o)).
Proof.
  intros Hco. split.
  - intros frame. rewrite onRender_frame_spec.
    destruct (frame_reaches_prototype _ _); [reflexivity|].
    intros t c H. unfold frame_own in H. cbv zeta in H. simpl in H.
    apply fold_retain_own_cache_subset in H. simpl in H.
    destruct (Hco t c H) as (o & Ho & Hto). exists o. split; [exact Ho|exact Hto].
  - intros t r p'. subst r p'. now apply cache_stays_coherent_aux.
Qed.

(** The bound of [cache_counts_bounded] on the state of the updater. *)
Lemma retain_own_counts_bounded r messageEvent :
  (forall t c, cache r !! t = Some c ->
     (cached_timestampCount c
      <= length (match updated r !! t with Some s => s | None => [] end))%nat) ->
  forall t c, cache (retain_own r messageEvent) !! t = Some c ->
    (cached_timestampCount c
     <= length (match updated (retain_own r messageEvent) !! t with
                | Some s => s | None => [] end))%nat.
Proof.
  intros H t c. destruct (decide (t = msg_topic messageEvent)) as [->|Hne].
  2:{ destruct (retain_own_other_topic r messageEvent t Hne) as [-> ->]. apply H. }
  specialize (H (msg_topic messageEvent) c). revert H.
  unfold retain_own, record_timestamp. cbv zeta.
  set (current := match updated r !! msg_topic messageEvent with Some s => s | None => [] end).
  set (added := Set_add current _).
  destruct (Nat.ltb_spec (length current) (length added)) as [Hg|Hg].
  - destruct (MAX_TIMESTAMPS_PER_TOPIC <? length added)%nat; simpl.
    + rewrite lookup_delete_eq. discriminate.
    + rewrite lookup_insert_eq. intros H Hc. specialize (H Hc). lia.
  - simpl. rewrite lookup_insert_eq. intros H Hc. specialize (H Hc).
    subst added. unfold Set_add in *. destruct (Set_has current _); [exact H|].
    rewrite length_app in *. lia.
Qed.

Lemma fold_retain_own_counts_bounded frame : forall r,
  (forall t c, cache r !! t = Some c ->
     (cached_timestampCount c
      <= length (match updated r !! t with Some s => s | None => [] end))%nat) ->
  forall t c, cache (fold_left retain_own frame r) !! t = Some c ->
    (cached_timestampCount c
     <= length (match updated (fold_left retain_own frame r) !! t with
                | Some s => s | None => [] end))%nat.
Proof.
  induction frame as [|ev frame IH]; intros r Hr; [exact Hr|].
  simpl. apply IH. now apply retain_own_counts_bounded.
Qed.

Lemma frame_own_counts_bounded frame p :
  cache_counts_bounded p -> cache_counts_bounded (frame_own frame p).
Proof.
  intros Hb t c Hc. unfold frame_own in *. cbv zeta in *. simpl in *.
  destruct (hasChanges _) eqn:Hch.
  - refine (fold_retain_own_counts_bounded frame
              (mkRetention (topicTimestamps p) (statsCache p) false) _ t c Hc).
    exact Hb.
  - apply fold_retain_own_cache_subset in Hc. apply (Hb t c Hc).
Qed.

(** X8: a cache entry is never stored for more timestamps than its channel
    holds: the bound is kept by every frame that completes (a set shrinks
    only when truncated at the cap, which deletes the entry) and by every
    [getCachedStats]. *)
Theorem cache_counts_stay_bounded (p : Panel) :
  cache_counts_bounded p ->
  (forall frame,
     match onRender_frame frame p with
     | normal p' => cache_counts_bounded p'
     | throw_TypeError => frame_reaches_prototype (topicTimestamps p) frame = true
     end)
  /\ (forall t, cache_counts_bounded (snd (getCachedStats Array_sort_default t p))).
Proof.
  intros Hb. split.
  - intros frame. rewrite onRender_frame_spec.
    destruct (frame_reaches_prototype _ _); [reflexivity|].
    now apply frame_own_counts_bounded.
  - intros t.
    destruct (getCachedStats_effect t p) as (_ & Htt & _ & Hother & (c & Hc & _ & Hn) & _).
    intros t' c' Hc'. rewrite Htt. destruct (decide (t' = t)) as [->|Hne].
    + rewrite Hc in Hc'. inversion Hc'; subst c'. rewrite Hn. lia.
    + rewrite (Hother t' Hne) in Hc'. apply (Hb t' c' Hc').
Qed.

(** While the updater walks a frame, a channel's set is the one it started
    with, or every cache entry of the channel counts fewer timestamps than
    the set holds. *)
Lemma fold_retain_own_outdates frame t : forall r0 r,
  (forall t' c, cache r !! t' = Some c ->
     (cached_timestampCount c
      <= length (match updated r !! t' with Some s => s | None => [] end))%nat) ->
  (updated r !! t = updated r0 !! t \/
   forall c, cache r !! t = Some c ->
     (cached_timestampCount c
      < length (match updated r !! t with Some s => s | None => [] end))%nat) ->
  updated (fold_left retain_own frame r) !! t = updated r0 !! t \/
  forall c, cache (fold_left retain_own frame r) !! t = Some c ->
    (cached_timestampCount c
     < length (match updated (fold_left retain_own frame r) !! t with
               | Some s => s | None => [] end))%nat.
Proof.
  induction frame as [|ev frame IH]; intros r0 r Hb Hk; [exact Hk|].
  cbn [fold_left]. apply IH; [now apply retain_own_counts_bounded|].
  destruct (decide (t = msg_topic ev)) as [->|Hne].
  2:{ destruct (retain_own_other_topic r ev t Hne) as [-> ->]. exact Hk. }
  specialize (Hb (msg_topic ev)). revert Hb Hk.
  unfold retain_own, record_timestamp. cbv zeta.
  set (current := match updated r !! msg_topic ev with Some s => s | None => [] end).
  set (added := Set_add current _).
  destruct (Nat.ltb_spec (length current) (length added)) as [Hg|Hg].
  - destruct (MAX_TIMESTAMPS_PER_TOPIC <? length added)%nat; simpl; intros Hb Hk; right.
    + intros c. rewrite lookup_delete_eq. discriminate.
    + intros c Hc. rewrite lookup_insert_eq. specialize (Hb c Hc). lia.
  - simpl. intros Hb Hk.
    assert (Eadd : added = current).
    { subst added. unfold Set_add in *. destruct (Set_has current _); [reflexivity|].
      rewrite length_app in Hg. simpl in Hg. lia. }
    assert (Ecur : updated r !! msg_topic ev = Some current).
    { subst current. destruct (updated r !! msg_topic ev) eqn:E; [reflexivity|].
      subst added. unfold Set_add in Eadd. simpl in Eadd. discriminate. }
    rewrite lookup_insert_eq, Eadd.
    destruct Hk as [Hk|Hk]; [left; now rewrite <- Hk, Ecur|right].
    intros c Hc. exact (Hk c Hc).
Qed.

(** X9: a new timestamp is never answered from the cache.  In a panel whose
    cache entries are bounded by the set sizes, once a frame has changed
    the set of a channel, the next [getCachedStats] of that channel misses:
    it allocates a new object computed from the channel's current
    timestamps and stores it under the current fingerprint. *)
Theorem new_timestamp_forces_recomputation (frame : list MessageEvent) (p p1 : Panel)
    (t : string) :
  cache_counts_bounded p ->
  onRender_frame frame p = normal p1 ->
  topicTimestamps p1 !! t <> topicTimestamps p !! t ->
  exists s',
    topicTimestamps p1 !! t = Some s'
    /\ getCachedStats Array_sort_default t p1
       = (length (objects p1),
          mkPanel (topicTimestamps p1)
            (<[t := mkCacheEntry (length (objects p1)) (Math_max s') (length s')]>
               (statsCache p1))
            (objects p1 ++
               [mkFrequencyStats t
                  (calculateFrequencyStats (outlierThreshold p1) (Array_sort_default s'))])
            (outlierThreshold p1)).
Proof.
  intros Hb Hrun Hnew. rewrite onRender_frame_spec in Hrun.
  destruct (frame_reaches_prototype _ _); [discriminate|].
  injection Hrun as <-.
  set (r0 := mkRetention (topicTimestamps p) (statsCache p) false) in *.
  pose proof (fold_retain_own_outdates frame t r0 r0 Hb (or_introl eq_refl)) as Hk.
  assert (Ett : topicTimestamps (frame_own frame p) = updated (fold_left retain_own frame r0)
                /\ statsCache (frame_own frame p) = cache (fold_left retain_own frame r0)).
  { unfold frame_own in *. cbv zeta in *. cbn [topicTimestamps statsCache] in *.
    fold r0 in Hnew |- *. destruct (hasChanges (fold_left retain_own frame r0)).
    - split; reflexivity.
    - now destruct Hnew. }
  destruct Ett as [Ett Ec].
  set (p1 := frame_own frame p) in *. clearbody p1. rewrite Ett in Hnew.
  destruct Hk as [Hk|Hk]; [now destruct Hnew|].
  rewrite <- Ett, <- Ec in Hk.
  destruct (topicTimestamps p1 !! t) as [s'|] eqn:Es.
  2:{ exfalso. apply Hnew. rewrite <- Ett, Es.
      (* a set is never removed *)
      destruct (topicTimestamps p !! t) as [s|] eqn:E0; [|reflexivity].
      exfalso. clear Hk Hnew.
      assert (Hkeep : forall frame r, updated r !! t <> None ->
                updated (fold_left retain_own frame r) !! t <> None).
      { clear. induction frame as [|ev frame IH]; intros r H; [exact H|].
        cbn [fold_left]. apply IH. unfold retain_own. intros Hn.
        apply record_timestamp_keys in Hn. tauto. }
      apply (Hkeep frame r0); [subst r0; simpl; congruence|].
      now rewrite <- Ett. }
  exists s'. split; [reflexivity|].
  rewrite (getCachedStats_miss Array_sort_default t p1).
  - now rewrite (Object_get_own _ _ _ Es).
  - intros c Hc. right. rewrite (Object_get_own _ _ _ Es). simpl.
    specialize (Hk c Hc). lia.
Qed.

(** X10: the cache ignores the outlier threshold.  After [getCachedStats]
    of a channel whose lookup does not reach the prototype (timestamps not
    NaN), changing [outlierThreshold] changes nothing for that channel: the
    next [getCachedStats] returns the same object, filtered under the old
    threshold, and stores nothing. *)
Theorem threshold_change_keeps_cached_stats (t : string) (p : Panel) (threshold : float) :
  (forall s, topicTimestamps p !! t = Some s -> nan_free s = true) ->
  reaches_prototype (topicTimestamps p) t = false ->
  let r1 := fst (getCachedStats Array_sort_default t p) in
  let p1 := snd (getCachedStats Array_sort_default t p) in
  getCachedStats Array_sort_default t (setOutlierThreshold threshold p1)
  = (r1, setOutlierThreshold threshold p1).
Proof.
  intros Hn Hp r1 p1.
  destruct (getCachedStats_entry Array_sort_default t p Hn Hp) as (c & Hc & Hr & Hl & Hcount).
  destruct (getCachedStats_effect t p) as (_ & Htt & _).
  fold r1 p1 in Hc, Hr, Htt. rewrite <- Hr.
  apply getCachedStats_hit; simpl; rewrite ?Htt; assumption.
Qed.

End CacheMore.

(** The cache of [cached_panel] holds one entry, for the four timestamps of
    "/imu". *)
Lemma cached_panel_bounded : cache_counts_bounded cached_panel.
Proof.
  intros t c Hc.
  change (statsCache cached_panel)
    with (<["/imu"%string := mkCacheEntry 0%nat 4.5%float 4%nat]> (∅ : gmap string CacheEntry))
    in Hc.
  change (topicTimestamps cached_panel)
    with (<["/imu"%string := [1; 2; 4; 4.5]%float]> (∅ : gmap string (list float))).
  destruct (decide (t = "/imu"%string)) as [->|Hne].
  - rewrite lookup_insert_eq in Hc. inversion Hc; subst c.
    rewrite lookup_insert_eq. simpl. lia.
  - rewrite lookup_insert_ne in Hc by congruence. rewrite lookup_empty in Hc. discriminate.
Defined.

(** An instance: the panel of [sample_panel], whose cache is empty. *)
Lemma cache_stays_coherent_witness :
  exists o, deref (snd (getCachedStats (fun l => l) "/imu" sample_panel))
              (fst (getCachedStats (fun l => l) "/imu" sample_panel)) = Some o
            /\ topic o = "/imu".
Proof.
  destruct (cache_stays_coherent (fun l => l) sample_panel) as [_ H].
  - intros t c Hc. vm_compute in Hc. discriminate.
  - exact (proj1 (proj2 (H "/imu"))).
Defined.

(** An instance: [cached_panel], whose cache holds the entry of "/imu" for
    four timestamps, receives [sample_frame]; the entry is still there and
    "/imu" holds five timestamps. *)
Lemma cache_counts_stay_bounded_witness :
  exists p' c s,
    onRender_frame sample_frame cached_panel = normal p'
    /\ statsCache p' !! "/imu" = Some c
    /\ topicTimestamps p' !! "/imu" = Some s
    /\ cached_timestampCount c = 4%nat /\ length s = 5%nat
    /\ cache_counts_bounded p'.
Proof.
  destruct (cache_counts_stay_bounded (fun l => l) cached_panel cached_panel_bounded)
    as [H _].
  specialize (H sample_frame).
  destruct (onRender_frame sample_frame cached_panel) as [p'|] eqn:E.
  - exists p'. vm_compute in E. inversion E; subst p'.
    do 2 eexists. split; [reflexivity|]. split; [vm_compute; reflexivity|].
    split; [vm_compute; reflexivity|]. split; [reflexivity|]. split; [reflexivity|].
    exact H.
  - vm_compute in E. discriminate.
Defined.

(** An instance: after [sample_frame] the cached entry of "/imu" is not
    used: the call allocates the object of index 1. *)
Lemma new_timestamp_forces_recomputation_witness :
  exists p1,
    onRender_frame sample_frame cached_panel = normal p1
    /\ fst (getCachedStats (fun l => l) "/imu" cached_panel) = 0%nat
    /\ fst (getCachedStats (fun l => l) "/imu" p1) = 1%nat.
Proof.
  destruct (onRender_frame sample_frame cached_panel) as [p1|] eqn:E.
  2:{ vm_compute in E. discriminate. }
  exists p1. split; [reflexivity|]. split; [reflexivity|].
  destruct (new_timestamp_forces_recomputation (fun l => l) sample_frame cached_panel p1
              "/imu" cached_panel_bounded E) as (s' & _ & Hcall).
  - vm_compute in E. inversion E; subst p1. vm_compute. discriminate.
  - rewrite Hcall. cbn [fst]. vm_compute in E. inversion E; subst p1. reflexivity.
Defined.

(** An instance: the summary of "/imu" computed under threshold 2 is still
    returned under threshold 0.5. *)
Lemma threshold_change_keeps_cached_stats_witness :
  fst (getCachedStats (fun l => l) "/imu"
         (setOutlierThreshold 0.5 (snd (getCachedStats (fun l => l) "/imu" sample_panel))))
  = fst (getCachedStats (fun l => l) "/imu" sample_panel).
Proof.
  rewrite (threshold_change_keeps_cached_stats (fun l => l) "/imu" sample_panel 0.5%float).
  - reflexivity.
  - intros s Hs. vm_compute in Hs. inversion Hs. reflexivity.
  - reflexivity.
Defined.

(** * Part XI: the sorted list of statistics *)

Section StatsList.
Local Open Scope float_scope.
Variable Array_sort_default : list float -> list float.
Variable localeCompare : string -> string -> Z.

Lemma sort_insert_by_Permutation {A} (positive : A -> A -> bool) a l :
  Permutation (sort_insert_by positive a l) (a :: l).
Proof.
  induction l as [|b l IH]; simpl; [reflexivity|].
  destruct (positive a b); [|reflexivity].
  rewrite IH. apply perm_swap.
Qed.

Lemma Array_sort_by_Permutation {A} (positive : A -> A -> bool) l :
  Permutation (Array_sort_by positive l) l.
Proof.
  induction l as [|a l IH]; simpl; [reflexivity|].
  rewrite sort_insert_by_Permutation. now constructor.
Qed.

(** A comparator that decides an order on the elements at hand sorts them:
    [le] holds from each element to every later one. *)
Lemma Array_sort_by_Sorted {A} (positive : A -> A -> bool)
    (le : A -> A -> Prop) (P : A -> Prop) :
  (forall a b c, le a b -> le b c -> le a c) ->
  (forall a b, P a -> P b -> if positive a b then le b a else le a b) ->
  forall l, Forall P l -> StronglySorted le (Array_sort_by positive l).
Proof.
  intros Htr Hc l Hl.
  apply (@Sorted_StronglySorted _ le); [exact Htr|].
  induction Hl as [|a l Pa Hl IH]; simpl; [constructor|].
  assert (HP : Forall P (Array_sort_by positive l)).
  { eapply Permutation_Forall; [|exact Hl]. symmetry. apply Array_sort_by_Permutation. }
  revert IH HP. generalize (Array_sort_by positive l). clear Hl.
  intros s Hs. induction Hs as [|b s Hs IH Hb]; intros HP; simpl.
  - repeat constructor.
  - inversion HP as [|? ? Pb HP']; subst. specialize (Hc a b Pa Pb).
    destruct (positive a b).
    + constructor; [now apply IH|].
      destruct s as [|c s]; simpl.
      * now repeat constructor.
      * inversion Hb; subst. destruct (positive a c); now constructor.
    + constructor; [now constructor|now constructor].
Qed.

(** The references [selectedTopics.map(getCachedStats)] returns point, in
    the final store, to objects of the selected topics, in order. *)
Lemma map_getCachedStats_spec selectedTopics : forall p,
  cache_coherent p ->
  let refs := fst (map_getCachedStats Array_sort_default selectedTopics p) in
  let p' := snd (map_getCachedStats Array_sort_default selectedTopics p) in
  cache_coherent p'
  /\ (forall r0 o, deref p r0 = Some o -> deref p' r0 = Some o)
  /\ Forall2 (fun r t => exists o, deref p' r = Some o /\ topic o = t)
       refs selectedTopics.
Proof.
  induction selectedTopics as [|t rest IH]; intros p Hco; simpl.
  - split; [exact Hco|]. split; [auto|constructor].
  - destruct (cache_stays_coherent_aux Array_sort_default t p Hco) as (Hco1 & (o & Ho & Hto) & Hmono).
    destruct (getCachedStats Array_sort_default t p) as [r p1]. simpl in *.
    specialize (IH p1 Hco1). cbv zeta in IH.
    destruct (map_getCachedStats Array_sort_default rest p1) as [rs p2]. simpl in *.
    destruct IH as (Hco2 & Hmono2 & Hall).
    split; [exact Hco2|]. split; [auto|].
    constructor; [|exact Hall]. exists o. split; [now apply Hmono2|exact Hto].
Qed.

(** X11: the list the panel shows has one entry per selected topic: under a
    coherent cache, [frequencyStats] returns as many references as topics
    are selected, each pointing to a stored object, and the topics of these
    objects are a permutation of the selected topics, however the list is
    sorted. *)
Theorem frequencyStats_lists_selected_topics (sortBy : SortBy)
    (selectedTopics : list string) (p : Panel) :
  cache_coherent p ->
  let refs := fst (frequencyStats Array_sort_default localeCompare sortBy selectedTopics p) in
  let p' := snd (frequencyStats Array_sort_default localeCompare sortBy selectedTopics p) in
  length refs = length selectedTopics
  /\ cache_coherent p'
  /\ exists stats,
       Forall2 (fun r o => deref p' r = Some o) refs stats
       /\ Permutation (map topic stats) selectedTopics.
Proof.
  intros Hco refs p'. subst refs p'. unfold frequencyStats.
  destruct (map_getCachedStats_spec selectedTopics p Hco) as (Hco' & _ & Hall).
  destruct (map_getCachedStats Array_sort_default selectedTopics p) as [rs p1].
  simpl in *.
  set (sorted := Array_sort_by _ rs).
  assert (HP : Permutation sorted rs) by apply Array_sort_by_Permutation.
  split; [rewrite (Permutation_length HP); now apply Forall2_length in Hall|].
  split; [exact Hco'|].
  (* the objects behind the unsorted references *)
  assert (Hobjs : exists objs, Forall2 (fun r o => deref p1 r = Some o) rs objs
                               /\ map topic objs = selectedTopics).
  { clear HP sorted. induction Hall as [|r t rs ts (o & Ho & Hto) _ IH].
    - exists []. split; constructor.
    - destruct IH as (objs & H1 & H2). exists (o :: objs).
      split; [now constructor|]. simpl. now rewrite Hto, H2. }
  destruct Hobjs as (objs & Hobjs & Htopics).
  assert (Hvalid : Forall (fun r => exists o, deref p1 r = Some o) sorted).
  { eapply Permutation_Forall; [symmetry; exact HP|].
    clear -Hobjs. induction Hobjs; constructor; eauto. }
  exists (map (fun r => match deref p1 r with
                        | Some o => o
                        | None => mkFrequencyStats "" (zeroStats 0 [] 0)
                        end) sorted).
  split.
  - clear -Hvalid. induction Hvalid as [|r l (o & Ho) _ IH]; simpl; constructor; [|exact IH].
    now rewrite Ho.
  - rewrite <- Htopics, map_map.
    transitivity (map (fun r => topic match deref p1 r with
                                      | Some o => o
                                      | None => mkFrequencyStats "" (zeroStats 0 [] 0)
                                      end) rs).
    + now apply Permutation_map.
    + clear -Hobjs. induction Hobjs as [|r o rs objs Ho _ IH]; simpl; [constructor|].
      rewrite Ho. now constructor.
Qed.

(** X12: sorted by outliers, the list runs from the most to the fewest
    outliers; sorted by frequency, from the highest to the lowest average
    frequency (averages that are not NaN). *)
Theorem frequencyStats_sorted (selectedTopics : list string) (p : Panel) :
  cache_coherent p ->
  (let refs := fst (frequencyStats Array_sort_default localeCompare by_outliers selectedTopics p) in
   let p' := snd (frequencyStats Array_sort_default localeCompare by_outliers selectedTopics p) in
   StronglySorted
     (fun ra rb => exists a b, deref p' ra = Some a /\ deref p' rb = Some b /\
                               (outlierCount (body b) <= outlierCount (body a))%Z)
     refs)
  /\ (let refs := fst (frequencyStats Array_sort_default localeCompare by_frequency selectedTopics p) in
      let p' := snd (frequencyStats Array_sort_default localeCompare by_frequency selectedTopics p) in
      Forall (fun r => forall o, deref p' r = Some o ->
                         is_nan (averageFrequency (body o)) = false) refs ->
      StronglySorted
        (fun ra rb => exists a b, deref p' ra = Some a /\ deref p' rb = Some b /\
                                  fge (averageFrequency (body a)) (averageFrequency (body b)))
        refs).
Proof.
  intros Hco.
  pose proof (map_getCachedStats_spec selectedTopics p Hco) as (_ & _ & Hall).
  unfold frequencyStats.
  destruct (map_getCachedStats Array_sort_default selectedTopics p) as [rs p1].
  simpl in *.
  assert (Hvalid : Forall (fun r => exists o, deref p1 r = Some o) rs).
  { clear -Hall. induction Hall as [|r t rs ts (o & Ho & _) _ IH]; constructor; eauto. }
  split.
  - apply (Array_sort_by_Sorted _ _ (fun r => exists o, deref p1 r = Some o)).
    + intros a b c (oa & ob & Ha & Hb & Hab) (ob' & oc & Hb' & Hc & Hbc).
      rewrite Hb in Hb'. inversion Hb'; subst ob'. exists oa, oc. repeat split; try assumption. lia.
    + intros ra rb (oa & Ha) (ob & Hb). rewrite Ha, Hb. simpl.
      destruct (Z.ltb_spec 0 (outlierCount (body ob) - outlierCount (body oa))).
      * exists ob, oa. repeat split; try assumption. lia.
      * exists oa, ob. repeat split; try assumption. lia.
    + exact Hvalid.
  - intros Hnan.
    assert (Hnan' : Forall (fun r => forall o, deref p1 r = Some o ->
                              is_nan (averageFrequency (body o)) = false) rs).
    { eapply Permutation_Forall; [apply Array_sort_by_Permutation|exact Hnan]. }
    apply (Array_sort_by_Sorted _ _
             (fun r => exists o, deref p1 r = Some o /\
                                 is_nan (averageFrequency (body o)) = false)).
    + intros a b c (oa & ob & Ha & Hb & Hab) (ob' & oc & Hb' & Hc & Hbc).
      rewrite Hb in Hb'. inversion Hb'; subst ob'. exists oa, oc.
      repeat split; try assumption. unfold fge in *. eapply leb_trans; eassumption.
    + intros ra rb (oa & Ha & Na) (ob & Hb & Nb). rewrite Ha, Hb. simpl.
      pose proof (descending_comparator _ _ Na Nb) as Hd.
      destruct (0 <? averageFrequency (body ob) - averageFrequency (body oa)).
      * exists ob, oa. repeat split; assumption.
      * exists oa, ob. repeat split; assumption.
    + rewrite List.Forall_forall in Hvalid, Hnan' |- *. intros r Hr.
      destruct (Hvalid r Hr) as (o & Ho). exists o. split; [exact Ho|].
      now apply (Hnan' r Hr).
Qed.

End StatsList.

(** An instance: two selected topics, one of them without any message. *)
Lemma frequencyStats_lists_selected_topics_witness :
  length (fst (frequencyStats (fun l => l) (fun _ _ => 0%Z) by_topic
                 ["/imu"; "/scan"] sample_panel)) = 2%nat.
Proof.
  refine (proj1 (frequencyStats_lists_selected_topics (fun l => l) (fun _ _ => 0%Z)
                   by_topic ["/imu"; "/scan"] sample_panel _)).
  intros t c Hc. vm_compute in Hc. discriminate.
Defined.

(** An instance: the same two topics sorted by outliers. *)
Lemma frequencyStats_sorted_witness :
  StronglySorted
    (fun ra rb =>
       exists a b,
         deref (snd (frequencyStats (fun l => l) (fun _ _ => 0%Z) by_outliers
                       ["/imu"; "/scan"] sample_panel)) ra = Some a /\
         deref (snd (frequencyStats (fun l => l) (fun _ _ => 0%Z) by_outliers
                       ["/imu"; "/scan"] sample_panel)) rb = Some b /\
         (outlierCount (body b) <= outlierCount (body a))%Z)
    (fst (frequencyStats (fun l => l) (fun _ _ => 0%Z) by_outliers
            ["/imu"; "/scan"] sample_panel)).
Proof.
  refine (proj1 (frequencyStats_sorted (fun l => l) (fun _ _ => 0%Z)
                   ["/imu"; "/scan"] sample_panel _)).
  intros t c Hc. vm_compute in Hc. discriminate.
Defined.

(** * Part XII: topic selection *)

Section Selection.

Lemma filter_neq_absent (t : string) l :
  ~ In t l -> List.filter (fun u => negb (String.eqb u t)) l = l.
Proof.
  induction l as [|u l IH]; simpl; intros H; [reflexivity|].
  destruct (String.eqb_spec u t) as [->|Hne]; simpl.
  - exfalso. apply H. now left.
  - f_equal. apply IH. tauto.
Qed.

(** X13: deselecting undoes selecting.  Deselecting a topic removes every
    occurrence of it and keeps the other topics in order; selecting a topic
    and then deselecting it gives what deselecting alone gives, which is
    the original selection when the topic was not selected. *)
Theorem deselect_undoes_select (topicName : string) (prev : list string) :
  ~ In topicName (handleTopicSelection topicName false prev)
  /\ (forall u, u <> topicName ->
        In u (handleTopicSelection topicName false prev) <-> In u prev)
  /\ sublist (handleTopicSelection topicName false prev) prev
  /\ handleTopicSelection topicName false (handleTopicSelection topicName true prev)
     = handleTopicSelection topicName false prev
  /\ (~ In topicName prev ->
      handleTopicSelection topicName false (handleTopicSelection topicName true prev)
      = prev).
Proof.
  unfold handleTopicSelection.
  assert (E : List.filter (fun t => negb (String.eqb t topicName)) (prev ++ [topicName])
              = List.filter (fun t => negb (String.eqb t topicName)) prev).
  { rewrite List.filter_app. simpl. rewrite String.eqb_refl. simpl. apply app_nil_r. }
  split.
  { intros H. apply filter_In in H as [_ H]. now rewrite String.eqb_refl in H. }
  split.
  { intros u Hne. rewrite filter_In. split; [tauto|]. intros H. split; [exact H|].
    destruct (String.eqb_spec u topicName); [contradiction|reflexivity]. }
  split.
  { clear E. induction prev as [|u l IH]; simpl; [constructor|].
    destruct (negb (String.eqb u topicName)); now constructor. }
  split; [exact E|].
  intros H. rewrite E. now apply filter_neq_absent.
Qed.

(** X14: expanding is a toggle.  After two calls of [toggleTopicExpanded]
    for a topic every topic is expanded exactly if it was before, and one
    call flips the state of that topic and of no other. *)
Theorem toggle_twice_restores (topic : string) (prev : list string) :
  (forall u, isExpanded (toggleTopicExpanded topic (toggleTopicExpanded topic prev)) u
             = isExpanded prev u)
  /\ isExpanded (toggleTopicExpanded topic prev) topic = negb (isExpanded prev topic)
  /\ (forall u, u <> topic ->
        isExpanded (toggleTopicExpanded topic prev) u = isExpanded prev u).
Proof.
  assert (Hfilter : forall l u,
            existsb (String.eqb u) (List.filter (fun t => negb (String.eqb t topic)) l)
            = existsb (String.eqb u) l && negb (String.eqb u topic)).
  { intros l u. induction l as [|v l IH]; simpl; [reflexivity|].
    destruct (String.eqb_spec v topic) as [->|Hv]; simpl.
    - rewrite IH. destruct (String.eqb_spec u topic); simpl.
      + now rewrite andb_false_r.
      + reflexivity.
    - rewrite IH. destruct (String.eqb_spec u v) as [->|Huv]; simpl.
      + destruct (String.eqb_spec v topic); [contradiction|reflexivity].
      + reflexivity. }
  assert (Happ : forall l u,
            existsb (String.eqb u) (l ++ [topic])
            = existsb (String.eqb u) l || String.eqb u topic).
  { intros l u. rewrite existsb_app. simpl. now rewrite orb_false_r. }
  assert (Hone : forall l u,
            isExpanded (toggleTopicExpanded topic l) u
            = if String.eqb u topic then negb (isExpanded l topic) else isExpanded l u).
  { intros l u. unfold isExpanded, toggleTopicExpanded. cbv zeta.
    destruct (existsb (String.eqb topic) l) eqn:E.
    - rewrite Hfilter. destruct (String.eqb_spec u topic) as [->|Hne]; simpl.
      + now rewrite andb_false_r.
      + now rewrite andb_true_r.
    - rewrite Happ. destruct (String.eqb_spec u topic) as [->|Hne]; simpl.
      + now rewrite orb_true_r.
      + now rewrite orb_false_r. }
  split.
  { intros u. rewrite !Hone. rewrite String.eqb_refl.
    destruct (String.eqb_spec u topic) as [->|Hne]; [|reflexivity].
    now rewrite negb_involutive. }
  split.
  { rewrite Hone. now rewrite String.eqb_refl. }
  intros u Hne. rewrite Hone.
  destruct (String.eqb_spec u topic); [contradiction|reflexivity].
Qed.

End Selection.

(** * Part XIII: the histogram *)

Section Histogram.
Local Open Scope float_scope.

(** ** Samples *)

Example Math_floor_sample :
  Math_floor 2.5 = I_int 2 /\ Math_floor (-2.5) = I_int (-3) /\
  Math_floor (-0) = I_neg_zero /\ Math_floor 0.3 = I_int 0 /\
  Math_floor (-0.3) = I_int (-1) /\ Math_floor 7 = I_int 7 /\
  Math_floor nan = I_nan /\ Math_floor infinity = I_infinity false.
Proof. repeat split; reflexivity. Qed.

Example createHistogram_sample :
  map (option_map count) (createHistogram [0.1; 0.1; 0.3] 4)
  = [Some 2; Some 0; Some 0; Some 1]%nat.
Proof. reflexivity. Qed.

(** ** The bin of a sample *)

Lemma bin_index_bound x bins k :
  array_index (Math_min_integral x (Z.of_nat bins - 1)) = Some k -> (k < bins)%nat.
Proof.
  destruct x as [|[|]| |z]; simpl; try discriminate.
  - destruct (Z.leb_spec 0 (Z.of_nat bins - 1)); destruct (Z.ltb_spec (Z.of_nat bins - 1) (2 ^ 32 - 1));
      simpl; try discriminate. intros [= <-]. lia.
  - destruct (Z.leb_spec 0 (Z.of_nat bins - 1)); simpl.
    + intros [= <-]. lia.
    + destruct (Z.leb_spec 0 (Z.of_nat bins - 1)); [lia|]. simpl. discriminate.
  - destruct (Z.leb_spec 0 (Z.min z (Z.of_nat bins - 1)));
      destruct (Z.ltb_spec (Z.min z (Z.of_nat bins - 1)) (2 ^ 32 - 1));
      simpl; try discriminate. intros [= <-]. lia.
Qed.

Lemma array_set_in_range arr k v :
  (k < length arr)%nat -> Forall is_Some arr ->
  length (array_set arr k v) = length arr /\ Forall is_Some (array_set arr k v).
Proof.
  intros Hk Hall. unfold array_set.
  destruct (Nat.ltb_spec k (length arr)) as [_|]; [|lia].
  split; [apply length_insert|]. apply Forall_insert; [exact Hall|eauto].
Qed.

Lemma histogram_add_full min binWidth bins arr freq :
  length arr = bins -> Forall is_Some arr ->
  length (histogram_add min binWidth bins arr freq) = bins /\
  Forall is_Some (histogram_add min binWidth bins arr freq).
Proof.
  intros Hl Hall. unfold histogram_add. cbv zeta.
  destruct (array_index _) as [k|] eqn:E; [|now split].
  apply bin_index_bound in E.
  destruct (array_set_in_range arr k (array_get_or_0 arr k + 1)) as [H1 H2];
    [lia|exact Hall|]. split; [lia|exact H2].
Qed.

Lemma histogram_fold_full min binWidth bins frequencies : forall arr,
  length arr = bins -> Forall is_Some arr ->
  length (fold_left (histogram_add min binWidth bins) frequencies arr) = bins /\
  Forall is_Some (fold_left (histogram_add min binWidth bins) frequencies arr).
Proof.
  induction frequencies as [|freq l IH]; intros arr Hl Hall; simpl; [now split|].
  destruct (histogram_add_full min binWidth bins arr freq Hl Hall) as [H1 H2].
  now apply IH.
Qed.

Lemma array_total_app a b : array_total (a ++ b) = (array_total a + array_total b)%nat.
Proof.
  induction a as [|[n|] a IH]; simpl; [reflexivity| |]; rewrite IH; lia.
Qed.

Lemma array_total_holes n : array_total (repeat None n) = 0%nat.
Proof. induction n; simpl; auto. Qed.

Lemma array_total_zeros n : array_total (repeat (Some 0%nat) n) = 0%nat.
Proof. induction n; simpl; auto. Qed.

Lemma array_set_total arr k :
  array_total (array_set arr k (array_get_or_0 arr k + 1)) = (array_total arr + 1)%nat.
Proof.
  unfold array_set. destruct (Nat.ltb_spec k (length arr)) as [Hk|Hk].
  - revert k Hk. induction arr as [|c arr IH]; intros k Hk; simpl in Hk; [lia|].
    destruct k as [|k].
    + unfold array_get_or_0. simpl. destruct c; lia.
    + change (array_get_or_0 (c :: arr) (S k)) with (array_get_or_0 arr k).
      simpl. specialize (IH k ltac:(lia)). destruct c; lia.
  - rewrite !array_total_app, array_total_holes. unfold array_get_or_0.
    replace (nth_error arr k) with (@None (option nat))
      by (symmetry; now apply nth_error_None).
    simpl. lia.
Qed.

Lemma histogram_add_total min binWidth bins arr freq :
  array_total (histogram_add min binWidth bins arr freq)
  = (array_total arr +
     match array_index (Math_min_integral (Math_floor ((freq - min) / binWidth))
                          (Z.of_nat bins - 1)) with
     | Some _ => 1 | None => 0 end)%nat.
Proof.
  unfold histogram_add. cbv zeta. destruct (array_index _); [apply array_set_total|lia].
Qed.

Lemma imap_bins_total (f : nat -> nat -> HistogramBin) arr :
  (forall i c, count (f i c) = c) ->
  histogram_total (imap (fun i c => option_map (f i) c) arr) = array_total arr.
Proof.
  revert f. induction arr as [|c arr IH]; intros f Hf; [reflexivity|].
  rewrite imap_cons. simpl.
  change (histogram_total (imap ((fun i c => option_map (f i) c) ∘ S) arr))
    with (histogram_total (imap (fun i c => option_map ((f ∘ S) i) c) arr)).
  rewrite (IH (f ∘ S)) by (intros; apply Hf).
  destruct c; simpl; [now rewrite Hf|reflexivity].
Qed.

(** X15: a histogram of a non-empty sample has exactly [bins] bins, none
    missing, and they tile the range: each bin ends exactly where the next
    one starts; an empty sample gives no bins. *)
Theorem createHistogram_shape (frequencies : list float) (bins : nat) :
  createHistogram [] bins = []
  /\ (frequencies <> [] ->
      length (createHistogram frequencies bins) = bins
      /\ Forall is_Some (createHistogram frequencies bins)
      /\ forall i b b',
           createHistogram frequencies bins !! i = Some (Some b) ->
           createHistogram frequencies bins !! S i = Some (Some b') ->
           binEnd b = binStart b').
Proof.
  split; [reflexivity|]. intros Hne. unfold createHistogram.
  replace (length frequencies =? 0)%nat with false
    by (destruct frequencies; [congruence|reflexivity]).
  cbv zeta.
  set (min := Math_min frequencies). set (max := Math_max frequencies).
  set (w := (max - min) / Number_of_nat bins).
  destruct (histogram_fold_full min w bins frequencies (repeat (Some 0%nat) bins))
    as [Hl Hall].
  { apply repeat_length. }
  { apply Forall_forall. intros c Hc%list_elem_of_In. apply repeat_spec in Hc. subst c. eauto. }
  set (arr := fold_left _ _ _) in *.
  split; [now rewrite length_imap|]. split.
  - apply Forall_forall. intros b Hb. apply list_elem_of_lookup in Hb as [i Hi].
    rewrite list_lookup_imap in Hi. destruct (arr !! i) as [c|] eqn:Hc; [|discriminate].
    simpl in Hi. inversion Hi; subst b.
    rewrite Forall_forall in Hall. destruct (Hall c) as [n ->]; [|eauto].
    eapply list_elem_of_lookup_2; exact Hc.
  - intros i b b'. rewrite !list_lookup_imap.
    destruct (arr !! i) as [[c|]|]; simpl; try discriminate.
    destruct (arr !! S i) as [[c'|]|]; simpl; try discriminate.
    intros [= <-] [= <-]. simpl. now rewrite Nat.add_1_r.
Qed.

(** An instance: three samples, the default 20 bins. *)
Lemma createHistogram_shape_witness :
  length (createHistogram [1; 2; 4] default_bins) = 20%nat.
Proof.
  exact (proj1 (proj2 (createHistogram_shape [1; 2; 4] default_bins) ltac:(discriminate))).
Defined.

(** X16: a histogram never shows more samples than it was given: the
    counts of its bins add up to at most the number of frequencies, each
    sample being counted in one bin or in none. *)
Theorem createHistogram_total_le (frequencies : list float) (bins : nat) :
  (histogram_total (createHistogram frequencies bins) <= length frequencies)%nat.
Proof.
  unfold createHistogram. destruct frequencies as [|f0 l] eqn:Ef; [simpl; lia|].
  rewrite <- Ef. replace (length frequencies =? 0)%nat with false by (now rewrite Ef).
  cbv zeta. rewrite imap_bins_total by reflexivity.
  set (min := Math_min frequencies).
  set (w := (Math_max frequencies - min) / Number_of_nat bins).
  assert (H : forall samples arr,
            (array_total (fold_left (histogram_add min w bins) samples arr)
             <= array_total arr + length samples)%nat).
  { induction samples as [|x samples IH]; intros arr; simpl; [lia|].
    specialize (IH (histogram_add min w bins arr x)).
    rewrite histogram_add_total in IH. destruct (array_index _); lia. }
  specialize (H frequencies (repeat (Some 0%nat) bins)).
  rewrite array_total_zeros in H. exact H.
Qed.

(** ** Finite numbers *)

Lemma is_finite_spec x :
  is_finite x = true ->
  match Prim2SF x with S754_zero _ | S754_finite _ _ _ => True | _ => False end.
Proof.
  unfold is_finite, is_infinity. intros H. apply negb_true_iff, orb_false_iff in H as [N I].
  apply not_nan_spec in N. rewrite FloatAxioms.eqb_spec, abs_spec in I.
  change (Prim2SF infinity) with (S754_infinity false) in I.
  destruct (Prim2SF x) as [s|s| |s m e]; try exact Logic.I; try congruence.
  discriminate.
Qed.

Lemma SFsub_self x :
  valid_binary x = true ->
  match x with S754_zero _ | S754_finite _ _ _ => True | _ => False end ->
  SF64sub x x = S754_zero false.
Proof.
  intros V H. destruct x as [[|]|s| |s m e]; try contradiction; try reflexivity.
  unfold SF64sub, SFsub. cbv zeta. now rewrite Z.sub_diag.
Qed.

Lemma sub_self x : is_finite x = true -> x - x = 0.
Proof.
  intros H. apply Prim2SF_inj. rewrite FloatAxioms.sub_spec.
  rewrite (SFsub_self _ (Prim2SF_valid x) (is_finite_spec x H)). reflexivity.
Qed.

Lemma is_finite_not_nan x : is_finite x = true -> is_nan x = false.
Proof. unfold is_finite. intros H. apply negb_true_iff, orb_false_iff in H. tauto. Qed.

(** The difference of a finite number and a finite lower bound is a zero, a
    positive number or +Infinity. *)
Lemma sub_lower_bound_nonneg a b :
  is_finite a = true -> is_finite b = true -> (b <=? a) = true ->
  SFnonneg (Prim2SF (a - b)).
Proof.
  intros Fa Fb Hle. rewrite FloatAxioms.sub_spec.
  pose proof (is_finite_spec a Fa) as Ha. pose proof (is_finite_spec b Fb) as Hb.
  pose proof (SFsub_sign (Prim2SF a) (Prim2SF b) (Prim2SF_valid a) (Prim2SF_valid b)) as Hs.
  rewrite FloatAxioms.leb_spec in Hle. unfold SFleb in Hle.
  rewrite (SFcompare_swap (Prim2SF a) (Prim2SF b)) in Hle.
  destruct (SFcompare (Prim2SF a) (Prim2SF b)) as [[| |]|] eqn:Ec; try discriminate.
  - assert (Heq : SFeqb (Prim2SF a) (Prim2SF b) = true) by (unfold SFeqb; now rewrite Ec).
    destruct (SFeqb_inv _ _ Heq) as [E|(s & s' & E1 & E2)].
    + rewrite <- E, (SFsub_self _ (Prim2SF_valid a) Ha). exact I.
    + rewrite E1, E2. destruct s, s'; exact I.
  - assert (Na : Prim2SF a <> S754_nan) by (intros E; rewrite E in Ha; exact Ha).
    assert (Nb : Prim2SF b <> S754_nan) by (intros E; rewrite E in Hb; exact Hb).
    specialize (Hs Na Nb). simpl in Hs.
    destruct (SF64sub (Prim2SF a) (Prim2SF b)) as [s|s| |s m e]; simpl in *;
      try contradiction; subst; exact I.
Qed.

Lemma SFdiv_nonneg a mw ew :
  SFnonneg a -> SFnonneg (SF64div a (S754_finite false mw ew)).
Proof.
  destruct a as [s|[|]| |[|] m e]; try contradiction; intros _; try exact I.
  unfold SF64div, SFdiv.
  pose proof (SFdiv_core_binary_nonneg m e mw ew) as Hq.
  destruct (SFdiv_core_binary prec emax (Zpos m) e (Zpos mw) ew) as [[mz ez] lz].
  pose proof (binary_round_aux_signed (xorb false false) mz ez lz Hq) as Hs.
  destruct (binary_round_aux prec emax (xorb false false) mz ez lz) as [s|s| |s m' e'];
    try contradiction; simpl in Hs; subst s; exact I.
Qed.

Lemma positive_finite_spec w :
  (0 <? w) = true -> (w <? infinity) = true ->
  exists m e, Prim2SF w = S754_finite false m e.
Proof.
  rewrite !FloatAxioms.ltb_spec. change (Prim2SF 0) with (S754_zero false).
  change (Prim2SF infinity) with (S754_infinity false).
  destruct (Prim2SF w) as [s|[|]| |[|] m e]; try discriminate; eauto.
Qed.

(** A zero, a positive number or +Infinity falls into one of the bins. *)
Lemma nonneg_bin_index q bins :
  SFnonneg (Prim2SF q) -> (1 <= bins)%nat -> (Z.of_nat bins <= 2 ^ 32 - 1)%Z ->
  exists k, array_index (Math_min_integral (Math_floor q) (Z.of_nat bins - 1)) = Some k.
Proof.
  intros Hq H1 H2. unfold Math_floor.
  assert (Hint : forall z, (0 <= z)%Z ->
            exists k, array_index (Math_min_integral (I_int z) (Z.of_nat bins - 1)) = Some k).
  { intros z Hz. simpl.
    destruct (Z.leb_spec 0 (Z.min z (Z.of_nat bins - 1))); [|lia].
    destruct (Z.ltb_spec (Z.min z (Z.of_nat bins - 1)) (2 ^ 32 - 1)); [|lia].
    simpl. eauto. }
  destruct (Prim2SF q) as [[|]|[|]| |[|] m e]; try contradiction.
  - simpl. destruct (Z.leb_spec 0 (Z.of_nat bins - 1)); [|lia]. simpl. eauto.
  - apply Hint. lia.
  - simpl. destruct (Z.leb_spec 0 (Z.of_nat bins - 1)); [|lia].
    destruct (Z.ltb_spec (Z.of_nat bins - 1) (2 ^ 32 - 1)); [|lia]. simpl. eauto.
  - destruct (0 <=? e)%Z eqn:E.
    + apply Hint. simpl. apply Z.mul_nonneg_nonneg; [lia|]. apply Z.pow_nonneg. lia.
    + apply Hint. simpl. apply Z.div_pos; [lia|]. apply Z.pow_pos_nonneg; lia.
Qed.

Lemma Math_min_all_equal x l :
  l <> [] -> is_nan x = false -> Forall (fun y => y = x) l ->
  Math_min l = x /\ Math_max l = x.
Proof.
  intros Hne Nx Hall.
  assert (Hn : nan_free l = true).
  { apply nan_free_Forall. eapply Forall_impl; [exact Hall|]. now intros y ->. }
  rewrite List.Forall_forall in Hall. split.
  - apply Hall. now apply Math_min_least.
  - apply Hall. now apply Math_max_greatest.
Qed.

(** X17: a perfectly regular channel has an empty histogram.  When all the
    frequencies are one and the same finite number, the bin width is 0,
    every sample's bin index is NaN, and all 20 bins of the histogram have
    count 0. *)
Theorem createHistogram_of_equal_samples (x : float) (frequencies : list float) :
  frequencies <> [] -> is_finite x = true -> Forall (fun y => y = x) frequencies ->
  length (createHistogram frequencies default_bins) = 20%nat
  /\ Forall (fun bin => exists b, bin = Some b /\ count b = 0%nat)
       (createHistogram frequencies default_bins)
  /\ histogram_total (createHistogram frequencies default_bins) = 0%nat.
Proof.
  intros Hne Fx Hall.
  destruct (Math_min_all_equal x frequencies Hne (is_finite_not_nan x Fx) Hall) as [Emin Emax].
  unfold createHistogram.
  replace (length frequencies =? 0)%nat with false
    by (destruct frequencies; [congruence|reflexivity]).
  cbv zeta. rewrite Emin, Emax, (sub_self x Fx).
  change (0 / Number_of_nat default_bins) with 0.
  assert (Hfold : forall arr,
            fold_left (histogram_add x 0 default_bins) frequencies arr = arr).
  { clear Hne Emin Emax. induction Hall as [|y l -> _ IH]; intros arr; [reflexivity|].
    simpl. rewrite <- (IH arr) at 2. f_equal.
    unfold histogram_add. cbv zeta. rewrite (sub_self x Fx). reflexivity. }
  rewrite Hfold. split; [reflexivity|]. split.
  - vm_compute. repeat constructor; eexists; split; reflexivity.
  - rewrite imap_bins_total by reflexivity. reflexivity.
Qed.

(** An instance: five rates of exactly 10 Hz. *)
Lemma createHistogram_of_equal_samples_witness :
  histogram_total (createHistogram [10; 10; 10; 10; 10] default_bins) = 0%nat.
Proof.
  refine (proj2 (proj2 (createHistogram_of_equal_samples 10 [10; 10; 10; 10; 10] _ _ _))).
  - discriminate.
  - reflexivity.
  - repeat constructor.
Defined.

(** X18: with a usable bin width every sample is shown.  When the
    frequencies are finite and the bin width [(max - min) / bins] is
    positive and finite, each sample is counted in exactly one bin: the
    counts add up to the number of frequencies. *)
Theorem createHistogram_counts_every_sample (frequencies : list float) (bins : nat) :
  (1 <= bins)%nat -> (Z.of_nat bins <= 2 ^ 32 - 1)%Z ->
  forallb is_finite frequencies = true ->
  (0 <? (Math_max frequencies - Math_min frequencies) / Number_of_nat bins) = true ->
  ((Math_max frequencies - Math_min frequencies) / Number_of_nat bins <? infinity) = true ->
  histogram_total (createHistogram frequencies bins) = length frequencies.
Proof.
  intros H1 H2 Hfin Hpos Hlt. unfold createHistogram.
  destruct frequencies as [|f0 l] eqn:Ef; [reflexivity|]. rewrite <- Ef in *.
  replace (length frequencies =? 0)%nat with false by (now rewrite Ef).
  cbv zeta. rewrite imap_bins_total by reflexivity.
  set (min := Math_min frequencies) in *.
  set (w := (Math_max frequencies - min) / Number_of_nat bins) in *.
  destruct (positive_finite_spec w Hpos Hlt) as (mw & ew & Hw).
  rewrite forallb_forall in Hfin.
  assert (Hn : nan_free frequencies = true).
  { apply nan_free_Forall, List.Forall_forall. intros y Hy.
    apply is_finite_not_nan. now apply Hfin. }
  destruct (Math_min_least frequencies ltac:(rewrite Ef; discriminate) Hn) as [Hin Hlow].
  fold min in Hin, Hlow. rewrite List.Forall_forall in Hlow.
  assert (Hbin : forall y, In y frequencies ->
            exists k, array_index (Math_min_integral (Math_floor ((y - min) / w))
                                     (Z.of_nat bins - 1)) = Some k).
  { intros y Hy. apply nonneg_bin_index; try assumption.
    rewrite div_spec, Hw. apply SFdiv_nonneg.
    apply sub_lower_bound_nonneg; [now apply Hfin|now apply Hfin|now apply Hlow]. }
  assert (H : forall samples arr, (forall y, In y samples -> In y frequencies) ->
            array_total (fold_left (histogram_add min w bins) samples arr)
            = (array_total arr + length samples)%nat).
  { induction samples as [|y samples IH]; intros arr Hsub; simpl; [lia|].
    rewrite IH by (intros; apply Hsub; now right).
    rewrite histogram_add_total.
    destruct (Hbin y (Hsub y (or_introl eq_refl))) as [k ->]. lia. }
  rewrite (H frequencies _ (fun y Hy => Hy)), array_total_zeros. reflexivity.
Qed.

(** An instance: six rates between 1 and 21 Hz. *)
Lemma createHistogram_counts_every_sample_witness :
  histogram_total (createHistogram [1; 2; 3; 4; 5; 21] default_bins) = 6%nat.
Proof.
  refine (createHistogram_counts_every_sample [1; 2; 3; 4; 5; 21] default_bins _ _ _ _ _).
  - unfold default_bins. lia.
  - vm_compute. discriminate.
  - reflexivity.
  - reflexivity.
  - reflexivity.
Defined.

End Histogram.
